(** * Magic Storyteller: transcript accumulator and scene-segmentation controller

    A shallow embedding of the two React components that carry the logic of
    the application:

    - [StoryRecorder] (components/StoryRecorder.tsx): the speech-transcript
      accumulator with its [base]/[session]/[interim] parts and the effect that
      synchronises the parent;
    - [Home] (pages/index.tsx): the segmentation controller with its cursor
      [lastProcessedLength], the word-count and pause triggers, the manual
      trigger and the asynchronous [handleGenerateScene].

    React is modelled by explicit state passing.  An event handler maps the
    state of the last render to the next state; afterwards the effects whose
    dependencies changed are run, until nothing changes any more.  The state
    updates of one handler, and those of the code that runs after an [await],
    are seen by the effects together: the effect that follows the commit of
    [handleGenerateScene] runs after its [finally] block.  A [useRef] cell is
    a field like any other; it differs from [useState] in that closures read
    its current value, which is why the callback of a timer takes the values
    of [useState] from the timer and the value of the cell from the state.
    A pending [setTimeout] is a field of the state that holds the remaining
    delay and the values its closure captured; time passes in the event
    [Elapse].  A suspended [await] is an entry of the list [inflight] that
    holds the local variables of the suspended call.  Logging, [alert] and
    the rendered markup are left out. *)

From Stdlib Require Import String Ascii DecimalString DecimalN.
From stdpp Require Import base list numbers option gmap.

Local Open Scope nat_scope.

(** ** JavaScript strings *)

Module JS.

(** A JavaScript string is a sequence of UTF-16 code units; [length], [slice]
    and [trim] all work on code units. *)
Definition str := list N.

(** A literal of the development, for 8-bit characters. *)
Definition lit (s : string) : str := map N_of_ascii (list_ascii_of_string s).

Definition str_eqb (a b : str) : bool := bool_decide (a = b).

(** [s.length] *)
Definition len (s : str) : nat := length s.

(** [s.slice(n)] for an integer [n >= 0] *)
Definition slice (n : nat) (s : str) : str := drop n s.

(** The code units that [String.prototype.trim] strips and that the regular
    expression class [\s] matches: WhiteSpace and LineTerminator of the
    language definition. *)
Definition is_ws (c : N) : bool :=
  (((9 <=? c) && (c <=? 13))
   || (c =? 32) || (c =? 160) || (c =? 5760)
   || ((8192 <=? c) && (c <=? 8202))
   || (c =? 8232) || (c =? 8233) || (c =? 8239) || (c =? 8287)
   || (c =? 12288) || (c =? 65279))%N.

Fixpoint trimStart (s : str) : str :=
  match s with
  | c :: r => if is_ws c then trimStart r else s
  | [] => []
  end.

Definition trimEnd (s : str) : str := rev (trimStart (rev s)).

(** [s.trim()] *)
Definition trim (s : str) : str := trimEnd (trimStart s).

(** Truthiness of a string: the empty string is the only falsy one. *)
Definition truthy (s : str) : bool :=
  match s with [] => false | _ => true end.

(** [s.endsWith(' ')] *)
Definition endsWith_space (s : str) : bool :=
  match rev s with c :: _ => (c =? 32)%N | [] => false end.

(** [s.split(/\s+/)].  The separator matches a maximal run of white space and
    never the empty string, so the pieces are the stretches between the runs;
    a run at the start or at the end leaves an empty piece there, and the
    empty string splits into one empty piece.  [in_sep] tells that the
    previous code unit belonged to a separator, [cur] is the piece read so
    far. *)
Fixpoint split_go (in_sep : bool) (cur : str) (s : str) : list str :=
  match s with
  | [] => [cur]
  | c :: r =>
      if is_ws c
      then (if in_sep then split_go true [] r else cur :: split_go true [] r)
      else split_go false (cur ++ [c]) r
  end.

Definition split_ws (s : str) : list str := split_go false [] s.

(** [text.trim().split(/\s+/).filter(w => w.length > 0).length] *)
Definition wordCount (text : str) : nat :=
  length (List.filter (fun w : str => 0 <? len w) (split_ws (trim text))).

(** The spec's reading of the same number: the non-empty tokens that white
    space delimits, counted where each one starts. *)
Fixpoint count_tokens_from (prev_ws : bool) (s : str) : nat :=
  match s with
  | [] => 0
  | c :: r =>
      if is_ws c then count_tokens_from true r
      else (if prev_ws then 1 else 0) + count_tokens_from false r
  end.

Definition count_tokens (s : str) : nat := count_tokens_from true s.

(** *** Notions used in the properties *)

Definition nonempty_pieces (l : list str) : nat :=
  length (List.filter (fun w : str => 0 <? len w) l).

Definition is_empty (s : str) : bool :=
  match s with [] => true | _ => false end.

(** The words of a text: the pieces that [wordCount] counts,
    [text.trim().split(/\s+/).filter(w => w.length > 0)]. *)
Definition words (text : str) : list str :=
  List.filter (fun w : str => 0 <? len w) (split_ws (trim text)).

(** The same words, read off from left to right; [cur] is the word read so
    far. *)
Fixpoint tokens_from (cur : str) (s : str) : list str :=
  match s with
  | [] => if is_empty cur then [] else [cur]
  | c :: r =>
      if is_ws c
      then (if is_empty cur then tokens_from [] r else cur :: tokens_from [] r)
      else tokens_from (cur ++ [c]) r
  end.

End JS.

Import JS.

(** ** The segmentation controller: pages/index.tsx, [Home] *)

Module Home.

(** [interface Scene]; [narrative] is copied from the response as it is and
    may be absent there. *)
Record Scene := mkScene {
  image : str;
  narrative : option str;
  id : N
}.

(** The [data] object that [response.json()] yields. *)
Record Data := mkData {
  success : bool;
  data_image : option str;
  data_narrative : option str
}.

Inductive Body :=
| BadJson                 (* [response.json()] rejects *)
| Json (d : Data).

(** How the awaited [fetch] settles. *)
Inductive FetchOutcome :=
| Rejected                          (* network error: [fetch] rejects *)
| Response (ok : bool) (body : Body).

(** The local variables of a call of [handleGenerateScene] that is suspended
    at its [await]. *)
Record Pending := mkPending {
  text : str;
  lengthProcessed : nat
}.

(** A pending [setTimeout] of the effect: the delay that is left and the
    values of the render whose effect armed it, which its closure reads. *)
Record PauseTimer := mkTimer {
  remaining : N;
  seenTranscript : str;
  seenProcessed : nat;
  seenNewText : str
}.

Record State := mkState {
  scenes : list Scene;
  currentTranscript : str;
  isProcessing : bool;
  lastProcessedLength : nat;
  processingRef : bool;
  timer : option PauseTimer;
  inflight : list Pending
}.

Definition setScenes (v : list Scene) (s : State) : State :=
  mkState v (currentTranscript s) (isProcessing s) (lastProcessedLength s)
          (processingRef s) (timer s) (inflight s).
Definition setCurrentTranscript (v : str) (s : State) : State :=
  mkState (scenes s) v (isProcessing s) (lastProcessedLength s)
          (processingRef s) (timer s) (inflight s).
Definition setIsProcessing (v : bool) (s : State) : State :=
  mkState (scenes s) (currentTranscript s) v (lastProcessedLength s)
          (processingRef s) (timer s) (inflight s).
Definition setLastProcessedLength (v : nat) (s : State) : State :=
  mkState (scenes s) (currentTranscript s) (isProcessing s) v
          (processingRef s) (timer s) (inflight s).
Definition setProcessingRef (v : bool) (s : State) : State :=
  mkState (scenes s) (currentTranscript s) (isProcessing s)
          (lastProcessedLength s) v (timer s) (inflight s).
Definition setTimer (v : option PauseTimer) (s : State) : State :=
  mkState (scenes s) (currentTranscript s) (isProcessing s)
          (lastProcessedLength s) (processingRef s) v (inflight s).
Definition setInflight (v : list Pending) (s : State) : State :=
  mkState (scenes s) (currentTranscript s) (isProcessing s)
          (lastProcessedLength s) (processingRef s) (timer s) v.

(** [currentTranscript.slice(lastProcessedLength)] *)
Definition pending (s : State) : str :=
  slice (lastProcessedLength s) (currentTranscript s).

(** [handleGenerateScene], up to its [await fetch(...)]: the guard, the flag,
    and the captured length. *)
Definition handleGenerateScene (txt : str) (s : State) : State :=
  if negb (truthy (trim txt)) || processingRef s then s
  else
    setInflight (inflight s ++ [mkPending txt (len txt)])
      (setIsProcessing true (setProcessingRef true s)).

Definition truthy_opt (o : option str) : bool :=
  match o with Some v => truthy v | None => false end.

(** Whether the [try] block reaches the two state updates. *)
Definition succeeded (o : FetchOutcome) : bool :=
  match o with
  | Response true (Json d) => success d && truthy_opt (data_image d)
  | _ => false
  end.

(** [handleGenerateScene] after its [await]s, for the suspended call [p]:
    the rest of the [try] block (an exception ends up in [catch], which only
    logs), then [finally].  [now] is [Date.now()]. *)
Definition resumeGenerateScene (p : Pending) (o : FetchOutcome) (now : N)
    (s : State) : State :=
  let s1 :=
    match o with
    | Rejected => s
    | Response false _ => s
    | Response true BadJson => s
    | Response true (Json d) =>
        if success d && truthy_opt (data_image d)
        then
          setLastProcessedLength (lastProcessedLength s + lengthProcessed p)
            (setScenes
               (scenes s ++
                  [mkScene (default [] (data_image d)) (data_narrative d) now])
               s)
        else s
    end in
  setIsProcessing false (setProcessingRef false s1).

Definition PAUSE_MS : N := 3000.

(** The body of the effect on [[currentTranscript, lastProcessedLength]]. *)
Definition useEffect_body (s : State) : State :=
  if len (currentTranscript s) <? lastProcessedLength s
  then setLastProcessedLength (len (currentTranscript s)) s
  else
    let newText := slice (lastProcessedLength s) (currentTranscript s) in
    if (25 <=? wordCount newText) && negb (processingRef s)
    then handleGenerateScene newText s
    else
      setTimer
        (Some (mkTimer PAUSE_MS (currentTranscript s) (lastProcessedLength s)
                       newText))
        s.

(** The callback of the effect's [setTimeout]. *)
Definition timer_callback (tm : PauseTimer) (s : State) : State :=
  if (seenProcessed tm + 10 <? len (seenTranscript tm))
     && negb (processingRef s)
  then
    if truthy (trim (seenNewText tm))
    then handleGenerateScene (seenNewText tm) s
    else s
  else s.

(** The [onClick] of the manual trigger button. *)
Definition onClick_generate (s : State) : State :=
  let newText := slice (lastProcessedLength s) (currentTranscript s) in
  if 3 <? len (trim newText) then handleGenerateScene newText s else s.

(** The [onClick] of "Clear History"; [confirmed] is the answer to
    [confirm(...)]. *)
Definition onClick_clearHistory (confirmed : bool) (s : State) : State :=
  if confirmed then setScenes [] s else s.

(** Rendering.  After a render the effect runs when one of its dependencies
    differs from the previous render: first the cleanup that the previous run
    returned ([clearTimeout]), then the body. *)
Definition deps_eqb (a b : State) : bool :=
  str_eqb (currentTranscript a) (currentTranscript b)
  && (lastProcessedLength a =? lastProcessedLength b).

Definition rerender (prev s : State) : State :=
  if deps_eqb prev s then s else useEffect_body (setTimer None s).

(** A state update is followed by a render; the effect may update the cursor
    (the shrink guard), which is followed by one more render.  Lemma
    [settle_stable] below shows that no further render runs the effect. *)
Definition settle (prev s : State) : State :=
  rerender s (rerender prev s).

Inductive Event :=
| TranscriptChange (t : str)       (* [onTranscriptChange(t)] of the recorder *)
| Elapse (ms : N)                  (* time passes *)
| GenerateClick                    (* "Generate Scene Now" *)
| ClearHistoryClick (confirmed : bool)
| FetchSettled (k : nat) (o : FetchOutcome) (now : N).

Definition step (s : State) (e : Event) : State :=
  match e with
  | TranscriptChange t => settle s (setCurrentTranscript t s)
  | Elapse ms =>
      match timer s with
      | None => s
      | Some tm =>
          if (ms <? remaining tm)%N
          then setTimer (Some (mkTimer (remaining tm - ms) (seenTranscript tm)
                                       (seenProcessed tm) (seenNewText tm))) s
          else settle s (timer_callback tm (setTimer None s))
      end
  | GenerateClick =>
      (* [disabled={isProcessing || currentTranscript.length === 0}] *)
      if isProcessing s || (len (currentTranscript s) =? 0) then s
      else settle s (onClick_generate s)
  | ClearHistoryClick confirmed =>
      (* the button is rendered when [scenes.length > 0] *)
      if 0 <? length (scenes s)
      then settle s (onClick_clearHistory confirmed s)
      else s
  | FetchSettled k o now =>
      match inflight s !! k with
      | None => s
      | Some p =>
          settle s (resumeGenerateScene p o now (setInflight (delete k (inflight s)) s))
      end
  end.

(** The mounted component: the first render, after which the effect runs. *)
Definition mount : State :=
  useEffect_body (mkState [] [] false 0 false None []).

Definition run (s : State) (evs : list Event) : State := fold_left step evs s.

(** *** Notions used in the properties, and sample states *)

Definition idle (l : list Pending) : bool :=
  match l with [] => true | _ => false end.

(** The suspended calls and the guard flag. *)
Record Core (s : State) : Prop := mkCore {
  core_one : length (inflight s) <= 1;
  core_flag : processingRef s = negb (idle (inflight s));
  core_shown : isProcessing s = processingRef s;
  core_frames :
    Forall (fun p => lengthProcessed p = len (text p)
                     /\ truthy (trim (text p)) = true) (inflight s)
}.

(** The cursor lies within the text, and a pending countdown was armed by
    the effect of the current render. *)
Record View (s : State) : Prop := mkView {
  view_cursor : lastProcessedLength s <= len (currentTranscript s);
  view_timer :
    forall tm, timer s = Some tm ->
      seenTranscript tm = currentTranscript s
      /\ seenProcessed tm = lastProcessedLength s
      /\ seenNewText tm = pending s
      /\ (remaining tm <= PAUSE_MS)%N
}.

Definition Inv (s : State) : Prop := Core s /\ View s.

(** A countdown that cannot trigger when it elapses. *)
Definition harmless (s : State) : Prop :=
  forall tm, timer s = Some tm ->
    (seenProcessed tm + 10 <? len (seenTranscript tm)) = false.

(** The events that can trigger a round. *)
Definition trigger_path (e : Event) : bool :=
  match e with
  | TranscriptChange _ | Elapse _ | GenerateClick => true
  | _ => false
  end.


(** The condition under which the callback of the countdown dispatches:
    more than ten code units beyond the cursor, a pending text that is not
    blank, and no round in flight. *)
Definition pause_fires (s : State) : bool :=
  (lastProcessedLength s + 10 <? len (currentTranscript s))
  && truthy (trim (pending s))
  && negb (processingRef s).

Definition fox25 : str :=
  lit "Once upon a time there was a little fox who loved to dance under the moonlight every single night without fail and then some more".

Definition illustrated (narr : str) : FetchOutcome :=
  Response true (Json (mkData true (Some (lit "https://img/1")) (Some narr))).

(** A state with one scene made and the cursor at the end of [fox25]. *)
Definition after_fox : State :=
  run mount [TranscriptChange fox25; FetchSettled 0 (illustrated fox25) 1%N].

(** A round in flight: the text of [fox25] was dispatched. *)
Definition fox_in_flight : State := step mount (TranscriptChange fox25).

Definition fox50 : str := fox25 ++ lit " " ++ fox25.

Definition ten_words : str := lit "one two three four five six seven eight nine ten".

(** The round of [fox25] in flight, and the text cut back to two words
    meanwhile. *)
Definition fox_cut : State :=
  step (step mount (TranscriptChange fox25)) (TranscriptChange (lit "Once upon")).

(** Four letters typed, nothing dispatched yet. *)
Definition typed_abcd : State := step mount (TranscriptChange (lit "abcd")).

End Home.

(** ** The transcript accumulator: components/StoryRecorder.tsx *)

Module Recorder.

(** One entry of [event.results]: [res.isFinal] and [res[0].transcript]. *)
Record SpeechResult := mkResult {
  isFinal : bool;
  alternative : str
}.

(** [event.error] of [onerror], as far as the handler tells the kinds apart. *)
Inductive SpeechError := NoSpeech | NotAllowed | OtherError.

Record State := mkState {
  isRecording : bool;
  transcript : str;
  interimTranscript : str;
  baseTranscript : str;
  sessionTranscript : str;
  isRecordingRef : bool;
  recognitionRef : bool;     (* [recognitionRef.current] is not null *)
  restartTimeout : bool;     (* the 800 ms restart after an edit is pending *)
  endRestarts : nat          (* pending 50 ms restarts armed by [onend] *)
}.

Definition setIsRecording (v : bool) (s : State) : State :=
  mkState v (transcript s) (interimTranscript s) (baseTranscript s)
          (sessionTranscript s) (isRecordingRef s) (recognitionRef s)
          (restartTimeout s) (endRestarts s).
Definition setTranscript (v : str) (s : State) : State :=
  mkState (isRecording s) v (interimTranscript s) (baseTranscript s)
          (sessionTranscript s) (isRecordingRef s) (recognitionRef s)
          (restartTimeout s) (endRestarts s).
Definition setInterimTranscript (v : str) (s : State) : State :=
  mkState (isRecording s) (transcript s) v (baseTranscript s)
          (sessionTranscript s) (isRecordingRef s) (recognitionRef s)
          (restartTimeout s) (endRestarts s).
Definition setBaseTranscript (v : str) (s : State) : State :=
  mkState (isRecording s) (transcript s) (interimTranscript s) v
          (sessionTranscript s) (isRecordingRef s) (recognitionRef s)
          (restartTimeout s) (endRestarts s).
Definition setSessionTranscript (v : str) (s : State) : State :=
  mkState (isRecording s) (transcript s) (interimTranscript s)
          (baseTranscript s) v (isRecordingRef s) (recognitionRef s)
          (restartTimeout s) (endRestarts s).
Definition setIsRecordingRef (v : bool) (s : State) : State :=
  mkState (isRecording s) (transcript s) (interimTranscript s)
          (baseTranscript s) (sessionTranscript s) v (recognitionRef s)
          (restartTimeout s) (endRestarts s).
Definition setRecognitionRef (v : bool) (s : State) : State :=
  mkState (isRecording s) (transcript s) (interimTranscript s)
          (baseTranscript s) (sessionTranscript s) (isRecordingRef s) v
          (restartTimeout s) (endRestarts s).
Definition setRestartTimeout (v : bool) (s : State) : State :=
  mkState (isRecording s) (transcript s) (interimTranscript s)
          (baseTranscript s) (sessionTranscript s) (isRecordingRef s)
          (recognitionRef s) v (endRestarts s).
Definition setEndRestarts (v : nat) (s : State) : State :=
  mkState (isRecording s) (transcript s) (interimTranscript s)
          (baseTranscript s) (sessionTranscript s) (isRecordingRef s)
          (recognitionRef s) (restartTimeout s) v.

Definition stopRecording (s : State) : State :=
  setRecognitionRef false (setIsRecordingRef false (setIsRecording false s)).

(** [startRecording].  [started] tells whether the engine exists and
    [instance.start()] returns; otherwise the function returns early or
    lands in its [catch], and the component's state is as before. *)
Definition startRecording (started : bool) (s : State) : State :=
  if started
  then
    let s1 := setRecognitionRef true s in
    if negb (isRecordingRef s1)
    then setIsRecordingRef true (setIsRecording true s1)
    else s1
  else s.

(** The loop of [onresult] over [event.results]: the pair
    [(finalChunk, interimChunk)]. *)
Definition chunks (results : list SpeechResult) : str * str :=
  fold_left
    (fun (acc : str * str) (res : SpeechResult) =>
       if isFinal res
       then (fst acc ++ alternative res, snd acc)
       else (fst acc, snd acc ++ alternative res))
    results ([], []).

(** The updater given to [setBaseTranscript] in [onresult]. *)
Definition bake (textToAppend prev : str) : str :=
  let spacer := if truthy prev && negb (endsWith_space prev)
                then lit " " else [] in
  prev ++ spacer ++ textToAppend.

(** [instance.onresult] *)
Definition onresult (results : list SpeechResult) (s : State) : State :=
  if negb (isRecordingRef s) then s
  else
    let finalChunk := fst (chunks results) in
    let interimChunk := snd (chunks results) in
    let s1 :=
      if truthy finalChunk
      then
        let textToAppend := trim finalChunk in
        setSessionTranscript []
          (setBaseTranscript (bake textToAppend (baseTranscript s)) s)
      else s in
    setInterimTranscript interimChunk s1.

(** [instance.onerror] *)
Definition onerror (e : SpeechError) (s : State) : State :=
  match e with
  | NoSpeech => s
  | NotAllowed => stopRecording s
  | OtherError => s
  end.

(** [instance.onend]: arms the 50 ms restart. *)
Definition onend (s : State) : State :=
  if isRecordingRef s then setEndRestarts (S (endRestarts s)) s else s.

(** The callback of the 50 ms timer of [onend]. *)
Definition restart_callback (started : bool) (s : State) : State :=
  if isRecordingRef s then startRecording started s else s.

Definition toggleRecording (started : bool) (s : State) : State :=
  if isRecording s
  then setInterimTranscript [] (setSessionTranscript [] (stopRecording s))
  else startRecording started (setBaseTranscript (transcript s) s).

(** [clearTranscript], without its call of [onTranscriptChange('')], which
    [step] records. *)
Definition clearTranscript (s : State) : State :=
  let s1 :=
    setInterimTranscript []
      (setSessionTranscript [] (setBaseTranscript [] (setTranscript [] s))) in
  if isRecording s then stopRecording s1 else s1.

Definition handleManualEdit (val : str) (s : State) : State :=
  let s1 :=
    setInterimTranscript []
      (setSessionTranscript [] (setBaseTranscript val (setTranscript val s))) in
  if isRecording s
  then
    let s2 := if recognitionRef s1 then setIsRecordingRef false s1 else s1 in
    setRestartTimeout true s2
  else s1.

(** The callback of the 800 ms timer of [handleManualEdit]. *)
Definition editRestart_callback (started : bool) (s : State) : State :=
  startRecording started (setIsRecordingRef true s).

(** [baseTranscript + sessionTranscript + interimTranscript] *)
Definition fullText (s : State) : str :=
  baseTranscript s ++ sessionTranscript s ++ interimTranscript s.

(** The body of the effect "Sync with parent": the next state and the
    arguments of the calls of [onTranscriptChange]. *)
Definition sync (s : State) : State * list str :=
  if negb (str_eqb (fullText s) (transcript s))
  then (setTranscript (fullText s) s, [fullText s])
  else (s, []).

(** The dependencies of that effect that are state of the component
    ([onTranscriptChange] is the parent's state setter, which never
    changes). *)
Definition deps_eqb (a b : State) : bool :=
  str_eqb (baseTranscript a) (baseTranscript b)
  && str_eqb (sessionTranscript a) (sessionTranscript b)
  && str_eqb (interimTranscript a) (interimTranscript b)
  && str_eqb (transcript a) (transcript b).

Definition rerender (prev s : State) : State * list str :=
  if deps_eqb prev s then (s, []) else sync s.

(** A handler is followed by a render; when the effect sets [transcript],
    one more render follows. *)
Definition settle (prev s : State) : State * list str :=
  let r1 := rerender prev s in
  let r2 := rerender s (fst r1) in
  (fst r2, snd r1 ++ snd r2).

Inductive Event :=
| OnResult (results : list SpeechResult)
| OnError (e : SpeechError)
| OnEnd
| RestartDue (started : bool)        (* a 50 ms restart timer fires *)
| EditRestartDue (started : bool)    (* the 800 ms restart timer fires *)
| ToggleClick (started : bool)
| ClearClick
| Edit (val : str).

(** The handler that an event runs. *)
Definition react (s : State) (e : Event) : State :=
  match e with
  | OnResult results => onresult results s
  | OnError err => onerror err s
  | OnEnd => onend s
  | RestartDue started =>
      match endRestarts s with
      | 0 => s
      | S n => restart_callback started (setEndRestarts n s)
      end
  | EditRestartDue started =>
      if restartTimeout s
      then editRestart_callback started (setRestartTimeout false s)
      else s
  | ToggleClick started => toggleRecording started s
  | ClearClick => clearTranscript s
  | Edit val => handleManualEdit val s
  end.

(** The calls of [onTranscriptChange] that a handler makes itself:
    [clearTranscript] calls it with the empty string. *)
Definition direct_calls (e : Event) : list str :=
  match e with
  | ClearClick => [[]]
  | _ => []
  end.

(** One reaction of the component: the next state and the texts passed to
    [onTranscriptChange], in order. *)
Definition step (s : State) (e : Event) : State * list str :=
  let r := settle s (react s e) in
  (fst r, direct_calls e ++ snd r).

Definition mount : State :=
  mkState false [] [] [] [] false false false 0.

(** *** Notions used in the properties, and sample states *)

Definition finals (results : list SpeechResult) : str :=
  List.concat (map alternative (List.filter isFinal results)).

Definition interims (results : list SpeechResult) : str :=
  List.concat
    (map alternative (List.filter (fun r => negb (isFinal r)) results)).

(** The text the parent holds after the calls [ns] of [onTranscriptChange],
    when it held [d] before. *)
Definition latest (ns : list str) (d : str) : str :=
  fold_left (fun _ n => n) ns d.

(** In a settled state the stored transcript is the concatenation. *)
Definition synced (s : State) : Prop := transcript s = fullText s.

Definition is_edit (e : Event) : bool :=
  match e with Edit _ => true | _ => false end.

Definition listening : State :=
  fst (step mount (ToggleClick true)).

(** The component through a sequence of events, and all it told the parent
    on the way. *)
Definition run (s : State) (evs : list Event) : State :=
  fold_left (fun s e => fst (step s e)) evs s.

(** The events that come from the recognition engine and from the restart
    timer of [onend]. *)
Definition engine_event (e : Event) : bool :=
  match e with
  | OnResult _ | OnError _ | OnEnd | RestartDue _ => true
  | _ => false
  end.

(** One recognition result with nothing but the final chunk [c]. *)
Definition final_result (c : str) : Event := OnResult [mkResult true c].

(** Listening, with "once" final and "up" still interim. *)
Definition heard_interim : State :=
  fst (step (fst (step mount (ToggleClick true)))
            (OnResult [mkResult true (lit "once"); mkResult false (lit "up")])).

(** All that the component tells the parent on its way through [evs]. *)
Fixpoint told (s : State) (evs : list Event) : list str :=
  match evs with
  | [] => []
  | e :: r => snd (step s e) ++ told (fst (step s e)) r
  end.

(** Listening, some text finalised, then stopped by the toggle. *)
Definition stopped : State :=
  fst (step (fst (step listening (OnResult [mkResult true (lit "once upon")])))
            (ToggleClick true)).

End Recorder.

(** ** The page: the recorder inside [Home], wired by [onTranscriptChange] *)

Module App.

Record State := mkState {
  recorder : Recorder.State;
  home : Home.State
}.

Inductive Event :=
| Rec (e : Recorder.Event)
| Elapse (ms : N)
| GenerateClick
| ClearHistoryClick (confirmed : bool)
| FetchSettled (k : nat) (o : Home.FetchOutcome) (now : N).

(** [onTranscriptChange={setCurrentTranscript}] *)
Definition notify (h : Home.State) (ns : list str) : Home.State :=
  fold_left (fun h t => Home.step h (Home.TranscriptChange t)) ns h.

Definition step (a : State) (e : Event) : State :=
  match e with
  | Rec ev =>
      let r := Recorder.step (recorder a) ev in
      mkState (fst r) (notify (home a) (snd r))
  | Elapse ms => mkState (recorder a) (Home.step (home a) (Home.Elapse ms))
  | GenerateClick => mkState (recorder a) (Home.step (home a) Home.GenerateClick)
  | ClearHistoryClick c =>
      mkState (recorder a) (Home.step (home a) (Home.ClearHistoryClick c))
  | FetchSettled k o now =>
      mkState (recorder a) (Home.step (home a) (Home.FetchSettled k o now))
  end.

Definition mount : State := mkState Recorder.mount Home.mount.

Definition run (a : State) (evs : list Event) : State := fold_left step evs a.

(** *** Notions used in the properties, and sample traces *)

Definition is_edit (e : Event) : bool :=
  match e with Rec ev => Recorder.is_edit ev | _ => false end.

(** The parent holds the stored transcript of the recorder, which is the
    concatenation of its parts. *)
Definition in_sync (a : State) : Prop :=
  Home.currentTranscript (home a) = Recorder.transcript (recorder a)
  /\ Recorder.synced (recorder a).

Definition startsWith_space (v : str) : bool :=
  match v with c :: _ => (c =? 32)%N | [] => false end.

(** The spec's reading of the join of two parts, "concatenated with
    separator normalization (ensure single space boundary)": two non-empty
    parts that have no space where they meet get one. *)
Definition join_normalized (a b : str) : str :=
  if is_empty a || is_empty b then a ++ b
  else if endsWith_space a || startsWith_space b then a ++ b
  else a ++ lit " " ++ b.

Definition spec_authoritativeText (r : Recorder.State) : str :=
  join_normalized
    (join_normalized (Recorder.baseTranscript r) (Recorder.sessionTranscript r))
    (Recorder.interimTranscript r).

Definition said_hello_world : list Event :=
  [Rec (Recorder.ToggleClick true);
   Rec (Recorder.OnResult [Recorder.mkResult true (lit "hello")]);
   Rec (Recorder.OnResult [Recorder.mkResult false (lit "world")])].

Definition edited_then_resumed : list Event :=
  [Rec (Recorder.ToggleClick true);
   Rec (Recorder.OnResult [Recorder.mkResult true (lit "abc")]);
   Rec (Recorder.Edit (lit "ab"));
   Rec (Recorder.EditRestartDue true)].




(** The page with the text of [fox25] finalised and its round in flight. *)
Definition fox_narrated : State :=
  run mount
    [Rec (Recorder.ToggleClick true);
     Rec (Recorder.OnResult [Recorder.mkResult true Home.fox25])].

(** The page after [fox25] was narrated, finalised and illustrated. *)
Definition fox_told : list Event :=
  [Rec (Recorder.ToggleClick true);
   Rec (Recorder.OnResult [Recorder.mkResult true Home.fox25]);
   FetchSettled 0 (Home.illustrated Home.fox25) 1%N].

End App.

(** ** Template literals and [encodeURIComponent] *)

Module Uri.

(** [`${n}`] for a non-negative integer [n]: its decimal digits. *)
Definition decimal (n : N) : str :=
  lit (NilZero.string_of_uint (N.to_uint n)).

Definition in_range (lo hi c : N) : bool := ((lo <=? c) && (c <=? hi))%N.

(** The code units that [encodeURIComponent] leaves as they are: letters,
    digits and [-_.!~*'()]. *)
Definition uri_unreserved (c : N) : bool :=
  in_range 65 90 c || in_range 97 122 c || in_range 48 57 c
  || (c =? 45)%N || (c =? 95)%N || (c =? 46)%N || (c =? 33)%N
  || (c =? 126)%N || (c =? 42)%N || (c =? 39)%N || (c =? 40)%N
  || (c =? 41)%N.

Definition hex_digit (n : N) : N := (if n <? 10 then 48 + n else 55 + n)%N.

(** One octet, escaped: [%XX] with upper-case digits. *)
Definition pct (b : N) : str := [37%N; hex_digit (b / 16); hex_digit (b mod 16)].

(** The octets of a code point in UTF-8. *)
Definition utf8 (cp : N) : list N :=
  (if cp <? 128 then [cp]
   else if cp <? 2048 then [192 + cp / 64; 128 + cp mod 64]
   else if cp <? 65536
        then [224 + cp / 4096; 128 + (cp / 64) mod 64; 128 + cp mod 64]
        else [240 + cp / 262144; 128 + (cp / 4096) mod 64;
              128 + (cp / 64) mod 64; 128 + cp mod 64])%N.

Definition escape (cp : N) : str := List.concat (map pct (utf8 cp)).

Definition high_surrogate (c : N) : bool := in_range 55296 56319 c.
Definition low_surrogate (c : N) : bool := in_range 56320 57343 c.

(** [encodeURIComponent(s)]; [None] is the [URIError] that a surrogate
    without its partner raises. *)
Fixpoint encodeURIComponent (s : str) : option str :=
  match s with
  | [] => Some []
  | c :: r =>
      if uri_unreserved c
      then option_map (cons c) (encodeURIComponent r)
      else if low_surrogate c then None
      else if high_surrogate c
      then
        match r with
        | c2 :: r' =>
            if low_surrogate c2
            then option_map
                   (app (escape ((c - 55296) * 1024 + (c2 - 56320) + 65536)%N))
                   (encodeURIComponent r')
            else None
        | [] => None
        end
      else option_map (app (escape c)) (encodeURIComponent r)
  end.

(** What an encoded component is made of. *)
Definition uri_safe (c : N) : bool := uri_unreserved c || (c =? 37)%N.

Definition ascii (c : N) : bool := (c <? 128)%N.

(** A UTF-16 code unit that is no surrogate. *)
Definition plain (c : N) : bool :=
  (c <? 65536)%N && negb (high_surrogate c) && negb (low_surrogate c).

End Uri.

(** ** The illustration endpoint: pages/api/generate-scene.ts *)

Module Api.

(** [req.method] and the [text] of a parsed [req.body]: a string, or
    missing. *)
Record Request := mkRequest {
  method : str;
  body_text : option str
}.

(** [type Data] *)
Record Data := mkData {
  success : bool;
  image : option str;
  narrative : option str;
  isNewScene : bool;
  error : option str
}.

(** [res.status(n).json(d)] *)
Record Reply := mkReply {
  status : N;
  json : Data
}.

Definition refusal (n : N) (msg : string) : Reply :=
  mkReply n (mkData false None None false (Some (lit msg))).

(** The class [[a-zA-Z0-9\s.,!?]] of the sanitising expression. *)
Definition allowed (c : N) : bool :=
  Uri.in_range 97 122 c || Uri.in_range 65 90 c || Uri.in_range 48 57 c
  || is_ws c || (c =? 46)%N || (c =? 44)%N || (c =? 33)%N || (c =? 63)%N.

(** [text.replace(/[^a-zA-Z0-9\s.,!?]/g, '')] *)
Definition safeText (text : str) : str := List.filter allowed text.

Definition imageUrl (encodedPrompt : str) (seed : N) : str :=
  lit "https://image.pollinations.ai/prompt/" ++ encodedPrompt
  ++ lit "?nologo=true&seed=" ++ Uri.decimal seed
  ++ lit "&width=384&height=216&model=turbo".

(** [handler]; [seed] is [Math.floor(Math.random() * 10000)].  The [catch]
    is reached when [encodeURIComponent] raises. *)
Definition handler (req : Request) (seed : N) : Reply :=
  if negb (str_eqb (method req) (lit "POST"))
  then refusal 405 "Method not allowed"
  else
    match body_text req with
    | None => refusal 200 "Text too short"
    | Some text =>
        if negb (truthy text) || (len text <? 5)
        then refusal 200 "Text too short"
        else
          match Uri.encodeURIComponent (safeText text ++ lit " kids story art") with
          | Some encodedPrompt =>
              mkReply 200
                (mkData true (Some (imageUrl encodedPrompt seed)) (Some text)
                        true None)
          | None => refusal 500 "Internal server error"
          end
    end.

(** The request that [handleGenerateScene] sends for [text], and what its
    [fetch] and [response.json()] make of a reply. *)
Definition request_for (text : str) : Request :=
  mkRequest (lit "POST") (Some text).

Definition outcome_of (r : Reply) : Home.FetchOutcome :=
  Home.Response (Uri.in_range 200 299 (status r))
    (Home.Json (Home.mkData (success (json r)) (image (json r))
                            (narrative (json r)))).

End Api.

(** ** The image relay: pages/api/proxy-image.ts *)

Module Proxy.

(** [req.query.url]: absent, given once, or given several times (an
    array). *)
Inductive QueryValue :=
| Absent
| One (v : str)
| Many (vs : list str).

(** How [fetch(url)] and [response.arrayBuffer()] turn out. *)
Inductive Upstream :=
| Unreachable
| Answered (ok : bool) (contentType : option str) (body : option (list N)).

Inductive Payload :=
| Text (t : str)
| Bytes (b : list N).

Record Reply := mkReply {
  status : N;
  headers : list (str * str);
  payload : Payload
}.

Definition handler (url : QueryValue) (upstream : str -> Upstream) : Reply :=
  match url with
  | One u =>
      if truthy u
      then
        match upstream u with
        | Answered true contentType (Some buffer) =>
            mkReply 200
              ((if Home.truthy_opt contentType
                then [(lit "Content-Type", default [] contentType)] else [])
               ++ [(lit "Cross-Origin-Resource-Policy", lit "cross-origin");
                   (lit "Cache-Control",
                    lit "public, max-age=31536000, immutable")])
              (Bytes buffer)
        | _ => mkReply 500 [] (Text (lit "Error fetching image"))
        end
      else mkReply 400 [] (Text (lit "Missing url param"))
  | _ => mkReply 400 [] (Text (lit "Missing url param"))
  end.

(** An upstream that answers every address with the same small image. *)
Definition png_upstream (u : str) : Upstream :=
  Answered true (Some (lit "image/png")) (Some [137; 80; 78; 71]%N).

(** [`/api/proxy-image?url=${encodeURIComponent(image)}`], as the page, the
    display and the exporter build it. *)
Definition proxied (image : str) : option str :=
  option_map (app (lit "/api/proxy-image?url=")) (Uri.encodeURIComponent image).

End Proxy.

(** ** The movie maker: components/VideoExporter.tsx *)

Module Exporter.

(** [text.split(' ')] *)
Fixpoint split_space_go (cur : str) (s : str) : list str :=
  match s with
  | [] => [cur]
  | c :: r =>
      if (c =? 32)%N then cur :: split_space_go [] r
      else split_space_go (cur ++ [c]) r
  end.

Definition split_space (s : str) : list str := split_space_go [] s.

Section Wrap.

(** [ctx.measureText(testLine).width > maxWidth] *)
Variable too_wide : str -> bool.

(** The wrapping loop of [addTextToImage], from index [n] on. *)
Fixpoint wrap_loop (n : nat) (line : str) (lines : list str)
    (words : list str) : list str :=
  match words with
  | [] => lines ++ [line]
  | w :: r =>
      let testLine := line ++ w ++ lit " " in
      if too_wide testLine && (0 <? n)
      then wrap_loop (S n) (w ++ lit " ") (lines ++ [line]) r
      else wrap_loop (S n) testLine lines r
  end.

Definition wrapText (text : str) : list str :=
  wrap_loop 0 [] [] (split_space text).

End Wrap.

(** [`input${i}.jpg`] *)
Definition frame_name (i : nat) : str :=
  lit "input" ++ Uri.decimal (N.of_nat i) ++ lit ".jpg".

(** How [addTextToImage] and the [ffmpeg.writeFile] after it turn out for
    one scene: the first rejects, or it resolves with the bytes of the
    captioned image and the second resolves or rejects. *)
Inductive FrameOutcome :=
| ImageFailed
| ImageDrawn (data : list N) (written : bool).

Section Run.

(** The outcome of the [i]-th round of the loop. *)
Variable render : nat -> Home.Scene -> FrameOutcome.

(** The loop of [exportVideo] from index [i] on: the files of the engine
    and whether the loop came to its end. *)
Fixpoint write_frames (i : nat) (scenes : list Home.Scene)
    (files : gmap str (list N)) : gmap str (list N) * bool :=
  match scenes with
  | [] => (files, true)
  | sc :: r =>
      match render i sc with
      | ImageDrawn data true => write_frames (S i) r (<[frame_name i := data]> files)
      | _ => (files, false)
      end
  end.

Record State := mkState {
  loaded : bool;
  isExporting : bool;
  files : gmap str (list N);       (* what [ffmpeg.writeFile] has stored *)
  downloads : list (list N);       (* the movies handed to the browser *)
  alerts : nat                     (* calls of [alert] *)
}.

(** [exportVideo], run to its end: every promise it awaits is taken to
    settle.  [exec_ok] tells whether [ffmpeg.exec] resolves, [output] what
    [ffmpeg.readFile('output.mp4')] yields ([None]: it rejects). *)
Definition exportVideo (scenes : list Home.Scene) (exec_ok : bool)
    (output : option (list N)) (s : State) : State :=
  if negb (loaded s) then s
  else
    let r := write_frames 0 scenes (files s) in
    match snd r, exec_ok, output with
    | true, true, Some data =>
        mkState (loaded s) false (fst r) (downloads s ++ [data]) (alerts s)
    | _, _, _ =>
        mkState (loaded s) false (fst r) (downloads s) (S (alerts s))
    end.

End Run.

(** The words of a caption, each followed by the space that the wrapping
    loop puts after it. *)
Definition spaced (words : list str) : str :=
  List.concat (map (fun w => w ++ lit " ") words).

(** A run of the loop in which every image is drawn and every file is
    written; the data stands for the captioned image. *)
Definition all_drawn (i : nat) (sc : Home.Scene) : FrameOutcome :=
  ImageDrawn (Home.image sc) true.

(** A measure for which a line of more than twelve code units is too
    wide. *)
Definition narrow (l : str) : bool := 12 <? len l.

(** The same, but for the second image, which fails to load. *)
Definition second_fails (i : nat) (sc : Home.Scene) : FrameOutcome :=
  if i =? 1 then ImageFailed else ImageDrawn (Home.image sc) true.

Definition two_scenes : list Home.Scene :=
  [Home.mkScene (lit "img-a") (Some (lit "a fox")) 1;
   Home.mkScene (lit "img-b") (Some (lit "danced")) 2].

End Exporter.

(** ** The live scene: what [Home] passes on and components/SceneDisplay.tsx *)

Module Display.

(** [scenes[scenes.length - 1]] *)
Definition currentScene (h : Home.State) : option Home.Scene :=
  match rev (Home.scenes h) with
  | sc :: _ => Some sc
  | [] => None
  end.

(** [currentScene?.image] *)
Definition currentImage (h : Home.State) : option str :=
  option_map Home.image (currentScene h).

(** [currentScene?.narrative || (isProcessing ? ... : ...)] *)
Definition narrativeText (h : Home.State) : str :=
  match currentScene h with
  | Some sc =>
      if Home.truthy_opt (Home.narrative sc)
      then default [] (Home.narrative sc)
      else if Home.isProcessing h then lit "Creating magic..."
           else lit "Start telling your story..."
  | None =>
      if Home.isProcessing h then lit "Creating magic..."
      else lit "Start telling your story..."
  end.

(** What [SceneDisplay] puts on the screen, from its properties and its
    state [isImgLoaded]. *)
Definition showLoading (isApiLoading : bool) (currentImage : option str)
    (isImgLoaded : bool) : bool :=
  isApiLoading || (Home.truthy_opt currentImage && negb isImgLoaded).

Definition image_panel (currentImage : option str) : bool :=
  Home.truthy_opt currentImage.

Definition waiting_panel (isApiLoading : bool) (currentImage : option str)
    (isImgLoaded : bool) : bool :=
  negb (Home.truthy_opt currentImage)
  && negb (showLoading isApiLoading currentImage isImgLoaded).

Definition caption_panel (narrativeText : str) : bool := truthy narrativeText.

End Display.

(** * Properties *)

(** ** Strings and the word count *)

Section Strings.

Example wordCount_fox :
  wordCount (lit "Once upon a time there was a little fox who loved to dance under the moonlight every single  night without fail yes it did ") = 24.
Proof. vm_compute. reflexivity. Qed.

Example split_edges : split_ws (lit " a  b ") = [[]; lit "a"; lit "b"; []].
Proof. vm_compute. reflexivity. Qed.

Example split_empty : split_ws [] = [[]].
Proof. reflexivity. Qed.

Lemma str_eqb_eq (a b : str) : str_eqb a b = true <-> a = b.
Proof. unfold str_eqb. apply bool_decide_eq_true. Qed.

Lemma str_eqb_neq (a b : str) : str_eqb a b = false <-> a <> b.
Proof. unfold str_eqb. apply bool_decide_eq_false. Qed.

Lemma str_eqb_refl (a : str) : str_eqb a a = true.
Proof. now apply str_eqb_eq. Qed.

Lemma slice_beyond (n : nat) (s : str) : len s <= n -> slice n s = [].
Proof. unfold slice, len. intros H. now apply drop_ge. Qed.


Lemma len_slice (n : nat) (s : str) : len (slice n s) = len s - n.
Proof. unfold slice, len. apply length_drop. Qed.

Lemma is_empty_snoc (cur : str) (c : N) : is_empty (cur ++ [c]) = false.
Proof. now destruct cur. Qed.

Lemma nonempty_pieces_cons (w : str) (l : list str) :
  nonempty_pieces (w :: l)
  = (if is_empty w then 0 else 1) + nonempty_pieces l.
Proof. unfold nonempty_pieces. now destruct w. Qed.

(** The pieces of the split that survive the filter are the tokens. *)
Lemma split_go_tokens (s : str) :
  forall (in_sep : bool) (cur : str),
    (in_sep = true -> cur = []) ->
    nonempty_pieces (split_go in_sep cur s)
    = (if is_empty cur then 0 else 1) + count_tokens_from (is_empty cur) s.
Proof.
  induction s as [|c r IH]; intros in_sep cur Hsep; simpl.
  - rewrite nonempty_pieces_cons. unfold nonempty_pieces. simpl. lia.
  - destruct (is_ws c) eqn:Hc.
    + destruct in_sep.
      * rewrite (Hsep eq_refl). simpl. now rewrite IH.
      * rewrite nonempty_pieces_cons, IH by reflexivity. simpl. reflexivity.
    + rewrite IH by discriminate. rewrite is_empty_snoc.
      destruct (is_empty cur); simpl; lia.
Qed.

Lemma count_tokens_trimStart (s : str) :
  count_tokens_from true (trimStart s) = count_tokens_from true s.
Proof.
  induction s as [|c r IH]; simpl; [reflexivity|].
  destruct (is_ws c) eqn:Hc; simpl; rewrite ?Hc; auto.
Qed.

Lemma trimStart_split (s : str) :
  exists w, s = w ++ trimStart s /\ forallb is_ws w = true.
Proof.
  induction s as [|c r [w [Hw Hall]]]; simpl.
  - now exists [].
  - destruct (is_ws c) eqn:Hc.
    + exists (c :: w). simpl. rewrite Hc, Hall. split; [now f_equal|reflexivity].
    + now exists [].
Qed.

Lemma count_tokens_ws_suffix (w : str) :
  forallb is_ws w = true ->
  forall (s : str) (b : bool),
    count_tokens_from b (s ++ w) = count_tokens_from b s.
Proof.
  intros Hw. induction s as [|c r IH]; intros b; simpl.
  - revert b. induction w as [|c w IHw]; intros b; simpl; [reflexivity|].
    simpl in Hw. apply andb_prop in Hw as [Hc Hw]. rewrite Hc. now apply IHw.
  - now rewrite !IH.
Qed.

Lemma forallb_rev (w : str) : forallb is_ws (rev w) = forallb is_ws w.
Proof.
  induction w as [|c w IH]; simpl; [reflexivity|].
  rewrite forallb_app, IH. simpl. rewrite andb_true_r. apply andb_comm.
Qed.

Lemma count_tokens_trimEnd (s : str) (b : bool) :
  count_tokens_from b (trimEnd s) = count_tokens_from b s.
Proof.
  unfold trimEnd. destruct (trimStart_split (rev s)) as [w [Hw Hall]].
  assert (Hs : s = rev (trimStart (rev s)) ++ rev w).
  { rewrite <- rev_app_distr, <- Hw. symmetry. apply rev_involutive. }
  rewrite Hs at 2. symmetry. apply count_tokens_ws_suffix.
  now rewrite forallb_rev.
Qed.

(** The number that the effect computes is the number of non-empty tokens
    that white space delimits. *)
Lemma wordCount_count_tokens (t : str) : wordCount t = count_tokens t.
Proof.
  unfold wordCount, split_ws, count_tokens, trim.
  change (length (List.filter (fun w : str => 0 <? len w) ?l))
    with (nonempty_pieces l).
  rewrite split_go_tokens by discriminate. simpl.
  now rewrite count_tokens_trimEnd, count_tokens_trimStart.
Qed.

Lemma wordCount_nil : wordCount [] = 0.
Proof. reflexivity. Qed.

(** A text with a word in it is not blank. *)
Lemma wordCount_pos_truthy (t : str) :
  0 < wordCount t -> truthy (trim t) = true.
Proof.
  intros H. destruct (trim t) eqn:Ht; [|reflexivity].
  unfold wordCount in H. rewrite Ht in H. simpl in H. lia.
Qed.

End Strings.

(** ** The segmentation controller *)

Module HomeProps.
Import Home.

Ltac unfold_setters :=
  unfold setScenes, setCurrentTranscript, setIsProcessing,
    setLastProcessedLength, setProcessingRef, setTimer, setInflight in *;
  cbn [scenes currentTranscript isProcessing lastProcessedLength
       processingRef timer inflight] in *.

Section Dispatch.

Lemma dispatch_guarded (txt : str) (s : State) :
  processingRef s = true -> handleGenerateScene txt s = s.
Proof.
  intros H. unfold handleGenerateScene. rewrite H.
  now rewrite orb_true_r.
Qed.

Lemma dispatch_fires (txt : str) (s : State) :
  truthy (trim txt) = true -> processingRef s = false ->
  handleGenerateScene txt s
  = setInflight (inflight s ++ [mkPending txt (len txt)])
      (setIsProcessing true (setProcessingRef true s)).
Proof. intros H1 H2. unfold handleGenerateScene. now rewrite H1, H2. Qed.

(** What a call of [handleGenerateScene] leaves alone. *)
Lemma dispatch_frame (txt : str) (s : State) :
  let s' := handleGenerateScene txt s in
  scenes s' = scenes s /\ currentTranscript s' = currentTranscript s
  /\ lastProcessedLength s' = lastProcessedLength s /\ timer s' = timer s.
Proof.
  unfold handleGenerateScene.
  destruct (negb (truthy (trim txt)) || processingRef s); cbn; auto.
Qed.

Lemma dispatch_scenes (txt : str) (s : State) :
  scenes (handleGenerateScene txt s) = scenes s.
Proof. apply dispatch_frame. Qed.

Lemma dispatch_transcript (txt : str) (s : State) :
  currentTranscript (handleGenerateScene txt s) = currentTranscript s.
Proof. apply dispatch_frame. Qed.

Lemma dispatch_cursor (txt : str) (s : State) :
  lastProcessedLength (handleGenerateScene txt s) = lastProcessedLength s.
Proof. apply dispatch_frame. Qed.

Lemma dispatch_timer (txt : str) (s : State) :
  timer (handleGenerateScene txt s) = timer s.
Proof. apply dispatch_frame. Qed.

(** The countdown's callback changes nothing but through a dispatch. *)
Lemma callback_frame (tm : PauseTimer) (s : State) :
  let s' := timer_callback tm s in
  scenes s' = scenes s /\ currentTranscript s' = currentTranscript s
  /\ lastProcessedLength s' = lastProcessedLength s /\ timer s' = timer s.
Proof.
  unfold timer_callback.
  destruct (_ && _); [|auto]. destruct (truthy _); [|auto].
  apply dispatch_frame.
Qed.

(** A call either returns at its guard or suspends one more request with the
    flag set. *)
Lemma dispatch_cases (txt : str) (s : State) :
  let s' := handleGenerateScene txt s in
  s' = s
  \/ (processingRef s = false /\ processingRef s' = true
      /\ inflight s' = inflight s ++ [mkPending txt (len txt)]).
Proof.
  unfold handleGenerateScene.
  destruct (truthy (trim txt)), (processingRef s); cbn; auto.
Qed.

End Dispatch.

Section Rendering.

Lemma deps_eqb_true (a b : State) :
  deps_eqb a b = true
  <-> currentTranscript a = currentTranscript b
      /\ lastProcessedLength a = lastProcessedLength b.
Proof.
  unfold deps_eqb. rewrite andb_true_iff, str_eqb_eq, Nat.eqb_eq. tauto.
Qed.

Lemma deps_eqb_refl (a : State) : deps_eqb a a = true.
Proof. now apply deps_eqb_true. Qed.

Lemma rerender_same (prev s : State) :
  currentTranscript prev = currentTranscript s ->
  lastProcessedLength prev = lastProcessedLength s ->
  rerender prev s = s.
Proof.
  intros H1 H2. unfold rerender.
  now rewrite (proj2 (deps_eqb_true prev s) (conj H1 H2)).
Qed.

Lemma rerender_changed (prev s : State) :
  currentTranscript prev <> currentTranscript s
  \/ lastProcessedLength prev <> lastProcessedLength s ->
  rerender prev s = useEffect_body (setTimer None s).
Proof.
  intros H. unfold rerender.
  destruct (deps_eqb prev s) eqn:E; [|reflexivity].
  apply deps_eqb_true in E. tauto.
Qed.

(** The effect only ever touches the cursor through the shrink guard. *)
Lemma effect_transcript (s : State) :
  currentTranscript (useEffect_body s) = currentTranscript s.
Proof.
  unfold useEffect_body.
  destruct (len (currentTranscript s) <? lastProcessedLength s); [reflexivity|].
  destruct (_ && _); [apply dispatch_frame | reflexivity].
Qed.

Lemma effect_scenes (s : State) : scenes (useEffect_body s) = scenes s.
Proof.
  unfold useEffect_body.
  destruct (len (currentTranscript s) <? lastProcessedLength s); [reflexivity|].
  destruct (_ && _); [apply dispatch_frame | reflexivity].
Qed.

Lemma effect_cursor (s : State) :
  lastProcessedLength (useEffect_body s)
  = Nat.min (lastProcessedLength s) (len (currentTranscript s)).
Proof.
  unfold useEffect_body.
  destruct (Nat.ltb_spec (len (currentTranscript s)) (lastProcessedLength s)).
  - cbn. lia.
  - destruct (_ && _).
    + destruct (dispatch_frame
                  (slice (lastProcessedLength s) (currentTranscript s)) s)
        as (_ & _ & -> & _). lia.
    + cbn. lia.
Qed.

Lemma rerender_transcript (prev s : State) :
  currentTranscript (rerender prev s) = currentTranscript s.
Proof.
  unfold rerender. destruct (deps_eqb prev s); [reflexivity|].
  now rewrite effect_transcript.
Qed.

Lemma rerender_scenes (prev s : State) : scenes (rerender prev s) = scenes s.
Proof.
  unfold rerender. destruct (deps_eqb prev s); [reflexivity|].
  now rewrite effect_scenes.
Qed.

(** When the cursor is within the text, the effect leaves it in place. *)
Lemma effect_cursor_within (s : State) :
  lastProcessedLength s <= len (currentTranscript s) ->
  lastProcessedLength (useEffect_body s) = lastProcessedLength s.
Proof. intros H. rewrite effect_cursor. lia. Qed.

(** After the two renders of [settle] the dependencies of the effect are
    those of the render before: a third render would not run it. *)
Lemma settle_stable (prev s : State) :
  rerender (rerender prev s) (settle prev s) = settle prev s.
Proof.
  unfold settle.
  set (s1 := rerender prev s).
  apply rerender_same.
  - now rewrite rerender_transcript.
  - unfold rerender at 1. destruct (deps_eqb s s1) eqn:E; [reflexivity|].
    rewrite effect_cursor. unfold_setters.
    assert (Hc : lastProcessedLength s1 <= len (currentTranscript s1)
                 \/ s1 = s).
    { unfold s1, rerender. destruct (deps_eqb prev s); [now right|left].
      rewrite effect_cursor, effect_transcript. unfold_setters. lia. }
    destruct Hc as [Hc | Hc]; [lia|].
    rewrite Hc, deps_eqb_refl in E. discriminate.
Qed.

(** The cursor of a settled state lies within the text whenever the effect
    ran or the cursor was within the text already. *)
Lemma settle_cursor_bound (prev s : State) :
  (lastProcessedLength prev <= len (currentTranscript prev)) ->
  lastProcessedLength (settle prev s) <= len (currentTranscript (settle prev s)).
Proof.
  intros Hprev. unfold settle.
  set (s1 := rerender prev s).
  assert (H1 : lastProcessedLength s1 <= len (currentTranscript s1)).
  { unfold s1, rerender. destruct (deps_eqb prev s) eqn:E.
    - apply deps_eqb_true in E as [<- <-]. exact Hprev.
    - rewrite effect_cursor, effect_transcript. unfold_setters. lia. }
  unfold rerender. destruct (deps_eqb s s1); [exact H1|].
  rewrite effect_cursor, effect_transcript. unfold_setters. lia.
Qed.

End Rendering.

(** *** Invariants of the reachable states *)

Section Invariants.

Lemma dispatch_core (txt : str) (s : State) :
  Core s -> Core (handleGenerateScene txt s).
Proof.
  intros [H1 H2 H3 H4]. unfold handleGenerateScene.
  destruct (truthy (trim txt)) eqn:Ht; cbn; [|now constructor].
  destruct (processingRef s) eqn:Hp; cbn; [constructor; auto; congruence|].
  destruct (inflight s) as [|p l] eqn:Hl; [|discriminate].
  constructor; unfold_setters; rewrite ?Hl; cbn; auto.
Qed.

Lemma effect_core (s : State) : Core s -> Core (useEffect_body s).
Proof.
  intros H. unfold useEffect_body.
  destruct (len (currentTranscript s) <? lastProcessedLength s).
  - destruct H. now constructor.
  - destruct (_ && _); [now apply dispatch_core|].
    destruct H. now constructor.
Qed.

Lemma clearTimer_core (s : State) : Core s -> Core (setTimer None s).
Proof. intros []. now constructor. Qed.

Lemma effect_view (s : State) : timer s = None -> View (useEffect_body s).
Proof.
  intros Ht. constructor.
  - rewrite effect_cursor, effect_transcript. lia.
  - unfold useEffect_body.
    destruct (len (currentTranscript s) <? lastProcessedLength s).
    + unfold_setters. rewrite Ht. discriminate.
    + destruct (_ && _).
      * destruct (dispatch_frame
                    (slice (lastProcessedLength s) (currentTranscript s)) s)
          as (_ & _ & _ & ->). rewrite Ht. discriminate.
      * unfold pending. unfold_setters. intros tm [= <-]. cbn.
        repeat split. unfold PAUSE_MS. lia.
Qed.

Lemma rerender_inv (prev s : State) :
  Core s -> (deps_eqb prev s = true -> View s) -> Inv (rerender prev s).
Proof.
  intros Hc Hv. unfold rerender. destruct (deps_eqb prev s).
  - split; auto.
  - split.
    + now apply effect_core, clearTimer_core.
    + now apply effect_view.
Qed.

Lemma settle_inv (prev s : State) :
  Core s -> (deps_eqb prev s = true -> View s) -> Inv (settle prev s).
Proof.
  intros Hc Hv. unfold settle.
  destruct (rerender_inv prev s Hc Hv) as [Hc1 Hv1].
  now apply rerender_inv.
Qed.

(** A view carries over to a state with the same text, cursor and
    countdown, and to one whose countdown was cancelled. *)
Lemma view_transfer (s s' : State) :
  View s ->
  currentTranscript s' = currentTranscript s ->
  lastProcessedLength s' = lastProcessedLength s ->
  timer s' = timer s \/ timer s' = None ->
  View s'.
Proof.
  intros [Ha Ht] HT HP Htm. constructor.
  - rewrite HT, HP. exact Ha.
  - unfold pending. rewrite HT, HP. intros tm Hs.
    destruct Htm as [Htm | Htm]; rewrite Htm in Hs; [auto | discriminate].
Qed.

Lemma resume_core (p : Pending) (o : FetchOutcome) (now : N) (s : State) :
  inflight s = [] -> Core (resumeGenerateScene p o now s).
Proof.
  intros Hl. unfold resumeGenerateScene.
  constructor; unfold_setters.
  - destruct o as [|[] [|d]]; try destruct (_ && _); cbn; rewrite Hl; cbn; lia.
  - destruct o as [|[] [|d]]; try destruct (_ && _); cbn; now rewrite Hl.
  - reflexivity.
  - destruct o as [|[] [|d]]; try destruct (_ && _); cbn; rewrite Hl; constructor.
Qed.

Lemma delete_single (l : list Pending) (k : nat) (p : Pending) :
  length l <= 1 -> l !! k = Some p -> l = [p] /\ delete k l = [].
Proof.
  destruct l as [|q [|r l]]; cbn; intros Hlen Hk; try lia.
  - discriminate.
  - destruct k; cbn in Hk; [|discriminate]. injection Hk as ->. auto.
Qed.

Lemma mount_inv : Inv mount.
Proof.
  split.
  - apply effect_core. constructor; cbn; auto.
  - now apply effect_view.
Qed.

Theorem step_inv (s : State) (e : Event) : Inv s -> Inv (step s e).
Proof.
  intros [Hc Hv]. destruct e as [t | ms | | c | k o now]; cbn [step].
  - apply settle_inv.
    + destruct Hc. now constructor.
    + intros E. apply deps_eqb_true in E as [E _]. cbn in E.
      apply (view_transfer s); cbn; auto.
  - destruct (timer s) as [tm|] eqn:Htm; [|now split].
    destruct (N.ltb_spec ms (remaining tm)).
    + split; [destruct Hc; now constructor|].
      destruct Hv as [Ha Ht]. destruct (Ht tm Htm) as (T1 & T2 & T3 & T4).
      constructor; [exact Ha|].
      unfold pending. unfold_setters. intros tm' [= <-]. cbn.
      repeat split; auto. lia.
    + apply settle_inv.
      * unfold timer_callback.
        destruct (_ && _); [|now apply clearTimer_core].
        destruct (truthy _); [|now apply clearTimer_core].
        now apply dispatch_core, clearTimer_core.
      * intros _.
        destruct (callback_frame tm (setTimer None s)) as (_ & T & P & Tm).
        apply (view_transfer s); auto.
  - destruct (_ || _); [now split|].
    apply settle_inv.
    + unfold onClick_generate. destruct (3 <? _); [now apply dispatch_core|auto].
    + intros _. unfold onClick_generate. destruct (3 <? _); [|auto].
      apply (view_transfer s); auto using dispatch_transcript, dispatch_cursor,
        dispatch_timer.
  - destruct (0 <? _); [|now split].
    apply settle_inv.
    + destruct c; cbn; [destruct Hc; now constructor | auto].
    + intros _. destruct c; cbn; [|auto]. now apply (view_transfer s); auto.
  - destruct (inflight s !! k) as [p|] eqn:Hk; [|now split].
    destruct (delete_single _ _ _ (core_one _ Hc) Hk) as [Hl Hd].
    apply settle_inv.
    + apply resume_core. cbn. exact Hd.
    + intros E. apply deps_eqb_true in E as [E1 E2].
      apply (view_transfer s); auto.
      unfold resumeGenerateScene.
      destruct o as [|[] [|d]]; try destruct (_ && _); cbn; auto.
Qed.

Lemma run_inv (evs : list Event) (s : State) : Inv s -> Inv (run s evs).
Proof.
  revert s. induction evs as [|e evs IH]; intros s H; cbn; [exact H|].
  apply IH. now apply step_inv.
Qed.

Lemma reachable_inv (evs : list Event) : Inv (run mount evs).
Proof. apply run_inv, mount_inv. Qed.

End Invariants.

(** *** The triggering law on a text change *)

Section TextChange.

Lemma effect_shrinks (s : State) :
  len (currentTranscript s) < lastProcessedLength s ->
  useEffect_body s = setLastProcessedLength (len (currentTranscript s)) s.
Proof.
  intros H. unfold useEffect_body.
  now rewrite (proj2 (Nat.ltb_lt _ _) H).
Qed.

Lemma effect_within (s : State) :
  lastProcessedLength s <= len (currentTranscript s) ->
  useEffect_body s
  = if (25 <=? wordCount (pending s)) && negb (processingRef s)
    then handleGenerateScene (pending s) s
    else setTimer (Some (mkTimer PAUSE_MS (currentTranscript s)
                                 (lastProcessedLength s) (pending s))) s.
Proof.
  intros H. unfold useEffect_body, pending.
  now rewrite (proj2 (Nat.ltb_ge _ _) H).
Qed.

(** A change that leaves the text at least as long as the cursor: one run
    of the effect. *)
Lemma change_within (s : State) (t : str) :
  t <> currentTranscript s -> lastProcessedLength s <= len t ->
  step s (TranscriptChange t)
  = useEffect_body (setTimer None (setCurrentTranscript t s)).
Proof.
  intros Hne Hle. cbn [step]. unfold settle.
  rewrite (rerender_changed s) by (left; cbn; congruence).
  apply rerender_same.
  - now rewrite effect_transcript.
  - now rewrite effect_cursor_within.
Qed.

(** A change that cuts the text below the cursor: the shrink guard, then
    the run of the effect for the new cursor, which finds nothing pending
    and arms the countdown. *)
Lemma change_shrink (s : State) (t : str) :
  t <> currentTranscript s -> len t < lastProcessedLength s ->
  step s (TranscriptChange t)
  = setTimer (Some (mkTimer PAUSE_MS t (len t) []))
      (setLastProcessedLength (len t) (setCurrentTranscript t s)).
Proof.
  intros Hne Hlt. cbn [step]. unfold settle.
  rewrite (rerender_changed s) by (left; cbn; congruence).
  rewrite effect_shrinks by exact Hlt.
  rewrite rerender_changed by (right; unfold_setters; lia).
  rewrite effect_within by (unfold_setters; lia).
  unfold pending. unfold_setters.
  rewrite slice_beyond by lia. rewrite wordCount_nil. reflexivity.
Qed.

Lemma elapse_harmless (s : State) (ms : N) :
  harmless s ->
  harmless (step s (Elapse ms)) /\ inflight (step s (Elapse ms)) = inflight s.
Proof.
  intros H. cbn [step]. destruct (timer s) as [tm|] eqn:Htm; [|auto].
  specialize (H tm Htm).
  destruct (ms <? remaining tm)%N.
  - split; [|reflexivity]. intros tm' [= <-]. exact H.
  - unfold timer_callback. cbn [seenProcessed seenTranscript]. rewrite H.
    cbn [andb]. unfold settle.
    rewrite (rerender_same s (setTimer None s)) by reflexivity.
    rewrite rerender_same by reflexivity.
    split; [|reflexivity]. intros tm' Hs. discriminate.
Qed.

Lemma silence_harmless (waits : list N) :
  forall s, harmless s -> inflight (run s (map Elapse waits)) = inflight s.
Proof.
  induction waits as [|ms waits IH]; intros s H; cbn; [reflexivity|].
  destruct (elapse_harmless s ms H) as [H1 H2].
  unfold run in IH. now rewrite IH.
Qed.

(** C2.  A text update whose new length is below the cursor sets the cursor
    to the new length and dispatches nothing: the suspended calls and the
    guard are as before, the scenes are as before, and the countdown that
    the update leaves armed never triggers, however long the silence that
    follows. *)
Theorem shrink_guard (s : State) (t : str) :
  t <> currentTranscript s ->
  len t < lastProcessedLength s ->
  let s' := step s (TranscriptChange t) in
  lastProcessedLength s' = len t
  /\ currentTranscript s' = t
  /\ inflight s' = inflight s
  /\ processingRef s' = processingRef s
  /\ isProcessing s' = isProcessing s
  /\ scenes s' = scenes s
  /\ forall waits : list N, inflight (run s' (map Elapse waits)) = inflight s.
Proof.
  intros Hne Hlt s'. subst s'. rewrite change_shrink by assumption.
  repeat split.
  intros waits. rewrite silence_harmless; [reflexivity|].
  intros tm [= <-]. cbn [seenProcessed seenTranscript].
  apply Nat.ltb_ge. lia.
Qed.

Lemma shrink_guard_witness :
  lit "Once upon" <> currentTranscript after_fox
  /\ len (lit "Once upon") < lastProcessedLength after_fox
  /\ lastProcessedLength
       (step after_fox (TranscriptChange (lit "Once upon"))) = 9.
Proof.
  split; [|split].
  - vm_compute. discriminate.
  - vm_compute. lia.
  - apply (shrink_guard after_fox (lit "Once upon")).
    + vm_compute. discriminate.
    + vm_compute. lia.
Defined.

(** C3.  On a text update with no round in flight: when the pending text
    has at least 25 words, the update dispatches exactly that pending text
    (one more suspended call, the guard set); when it has fewer, 24
    included, it dispatches nothing and leaves the countdown armed.  The
    number of words is the number of non-empty white-space-delimited
    tokens. *)
Theorem word_count_trigger (s : State) (t : str) :
  t <> currentTranscript s ->
  processingRef s = false ->
  let p := slice (lastProcessedLength s) t in
  let s' := step s (TranscriptChange t) in
  wordCount p = count_tokens p
  /\ (25 <= wordCount p ->
      inflight s' = inflight s ++ [mkPending p (len p)]
      /\ processingRef s' = true
      /\ lastProcessedLength s' = lastProcessedLength s)
  /\ (wordCount p < 25 ->
      inflight s' = inflight s
      /\ processingRef s' = false
      /\ exists tm, timer s' = Some tm /\ remaining tm = PAUSE_MS).
Proof.
  intros Hne Hidle p s'. split; [apply wordCount_count_tokens|].
  destruct (Nat.lt_ge_cases (len t) (lastProcessedLength s)) as [Hlt | Hge].
  - (* the shrink guard: nothing is pending *)
    assert (Hp : wordCount p = 0).
    { unfold p. rewrite slice_beyond by lia. reflexivity. }
    split; [lia|]. intros _. subst s'. rewrite change_shrink by assumption.
    cbn. repeat split; eauto.
  - subst s'. rewrite change_within by assumption.
    rewrite effect_within by exact Hge.
    unfold pending. unfold_setters. fold p. rewrite Hidle. cbn [negb].
    rewrite andb_true_r. split; intros Hw.
    + rewrite (proj2 (Nat.leb_le _ _) Hw).
      rewrite dispatch_fires
        by (try apply wordCount_pos_truthy; cbn; auto; lia).
      cbn. auto.
    + rewrite (proj2 (Nat.leb_gt _ _) Hw). cbn. repeat split; eauto.
Qed.

Lemma word_count_trigger_witness :
  fox25 <> currentTranscript mount
  /\ processingRef mount = false
  /\ wordCount (slice (lastProcessedLength mount) fox25) = 25
  /\ inflight (step mount (TranscriptChange fox25))
     = [mkPending fox25 (len fox25)].
Proof.
  assert (H1 : fox25 <> currentTranscript mount) by (vm_compute; discriminate).
  assert (H2 : processingRef mount = false) by reflexivity.
  split; [exact H1|]. split; [exact H2|].
  split; [vm_compute; reflexivity|].
  destruct (word_count_trigger mount fox25 H1 H2) as (_ & H & _).
  apply H. vm_compute. lia.
Defined.

End TextChange.

(** *** While a round is in flight *)

Section InFlight.

Lemma effect_guarded (s : State) :
  processingRef s = true ->
  inflight (useEffect_body s) = inflight s
  /\ processingRef (useEffect_body s) = true.
Proof.
  intros H. unfold useEffect_body. rewrite H, andb_false_r.
  now destruct (len (currentTranscript s) <? lastProcessedLength s).
Qed.

Lemma rerender_guarded (prev s : State) :
  processingRef s = true ->
  inflight (rerender prev s) = inflight s
  /\ processingRef (rerender prev s) = true.
Proof.
  intros H. unfold rerender. destruct (deps_eqb prev s); [auto|].
  now apply (effect_guarded (setTimer None s)).
Qed.

Lemma settle_guarded (prev s : State) :
  processingRef s = true ->
  inflight (settle prev s) = inflight s
  /\ processingRef (settle prev s) = true.
Proof.
  intros H. unfold settle.
  destruct (rerender_guarded prev s H) as [H1 H2].
  destruct (rerender_guarded s (rerender prev s) H2) as [H3 H4].
  split; congruence.
Qed.

Lemma settle_transcript (prev s : State) :
  currentTranscript (settle prev s) = currentTranscript s.
Proof. unfold settle. now rewrite !rerender_transcript. Qed.

Lemma settle_scenes (prev s : State) : scenes (settle prev s) = scenes s.
Proof. unfold settle. now rewrite !rerender_scenes. Qed.



(** With the guard set, no trigger path dispatches. *)
Lemma guarded_no_dispatch (s : State) (e : Event) :
  processingRef s = true -> trigger_path e = true ->
  inflight (step s e) = inflight s /\ processingRef (step s e) = true.
Proof.
  intros H He. destruct e as [t | ms | | c | k o now]; try discriminate;
    cbn [step].
  - exact (settle_guarded s (setCurrentTranscript t s) H).
  - destruct (timer s) as [tm|]; [|auto].
    destruct (ms <? remaining tm)%N; [auto|].
    unfold timer_callback. cbn [processingRef setTimer]. rewrite H.
    rewrite andb_false_r. exact (settle_guarded s (setTimer None s) H).
  - destruct (_ || _); [auto|].
    unfold onClick_generate. destruct (3 <? _).
    + rewrite dispatch_guarded by exact H. now apply settle_guarded.
    + now apply settle_guarded.
Qed.




End InFlight.

(** *** The commit protocol *)

Section Commit.

Lemma settle_same (prev s : State) :
  currentTranscript prev = currentTranscript s ->
  lastProcessedLength prev = lastProcessedLength s ->
  settle prev s = s.
Proof.
  intros H1 H2. unfold settle. rewrite (rerender_same prev s) by assumption.
  now apply rerender_same.
Qed.

Lemma resume_failure (p : Pending) (o : FetchOutcome) (now : N) (s : State) :
  succeeded o = false ->
  resumeGenerateScene p o now s
  = setIsProcessing false (setProcessingRef false s).
Proof.
  unfold resumeGenerateScene, succeeded.
  destruct o as [|[] [|d]]; try reflexivity. now intros ->.
Qed.

Lemma resume_success (p : Pending) (o : FetchOutcome) (now : N) (s : State) :
  succeeded o = true ->
  exists sc,
    resumeGenerateScene p o now s
    = setIsProcessing false
        (setProcessingRef false
           (setLastProcessedLength (lastProcessedLength s + lengthProcessed p)
              (setScenes (scenes s ++ [sc]) s))).
Proof.
  unfold resumeGenerateScene, succeeded.
  destruct o as [|[] [|d]]; try discriminate. intros ->. eauto.
Qed.

Lemma settle_cursor (prev s : State) :
  lastProcessedLength (settle prev s)
  = if deps_eqb prev s then lastProcessedLength s
    else Nat.min (lastProcessedLength s) (len (currentTranscript s)).
Proof.
  unfold settle, rerender at 2. destruct (deps_eqb prev s) eqn:E.
  - now rewrite rerender_same.
  - unfold rerender. destruct (deps_eqb s _).
    + rewrite effect_cursor. reflexivity.
    + rewrite effect_cursor.
      cbn [lastProcessedLength currentTranscript setTimer].
      rewrite effect_cursor, effect_transcript.
      cbn [lastProcessedLength currentTranscript setTimer]. lia.
Qed.







End Commit.

(** *** The in-flight guard *)

Section Guard.

(** C4.  In every reachable state at most one call is suspended, and the
    guard flag is set exactly when one is.  With the flag set every trigger
    path (text change, countdown, manual click) dispatches nothing.  A call
    of [handleGenerateScene] that dispatches found the flag clear and is
    suspended with the flag set.  The resumed call ends with the flag clear
    whatever the outcome of the request, failures included. *)
Theorem in_flight_exclusive :
  (forall evs : list Event,
      let s := run mount evs in
      length (inflight s) <= 1
      /\ (processingRef s = true <-> inflight s <> []))
  /\ (forall (s : State) (e : Event),
        processingRef s = true -> trigger_path e = true ->
        inflight (step s e) = inflight s /\ processingRef (step s e) = true)
  /\ (forall (s : State) (txt : str),
        let s' := handleGenerateScene txt s in
        s' = s
        \/ (processingRef s = false /\ processingRef s' = true
            /\ inflight s' = inflight s ++ [mkPending txt (len txt)]))
  /\ (forall (p : Pending) (o : FetchOutcome) (now : N) (s : State),
        processingRef (resumeGenerateScene p o now s) = false
        /\ isProcessing (resumeGenerateScene p o now s) = false).
Proof.
  split; [|split; [|split]].
  - intros evs s. destruct (reachable_inv evs) as [[H1 H2 _ _] _].
    fold s in H1, H2. split; [exact H1|]. rewrite H2.
    destruct (inflight s); cbn; split; congruence.
  - exact guarded_no_dispatch.
  - exact (fun s txt => dispatch_cases txt s).
  - intros p o now s. unfold resumeGenerateScene. split; reflexivity.
Qed.

Lemma in_flight_exclusive_witness :
  processingRef fox_in_flight = true
  /\ inflight (step fox_in_flight (TranscriptChange fox50))
     = inflight fox_in_flight
  /\ inflight (step fox_in_flight (Elapse 5000)) = inflight fox_in_flight
  /\ inflight (step fox_in_flight GenerateClick) = inflight fox_in_flight.
Proof.
  assert (H : processingRef fox_in_flight = true) by reflexivity.
  destruct in_flight_exclusive as (_ & G & _).
  split; [exact H|].
  split; [|split]; apply G; auto.
Defined.

End Guard.

(** *** The countdown of the pause trigger *)

Section Pause.

Lemma callback_fires (tm : PauseTimer) (s : State) :
  seenTranscript tm = currentTranscript s ->
  seenProcessed tm = lastProcessedLength s ->
  seenNewText tm = pending s ->
  timer_callback tm (setTimer None s)
  = if pause_fires s
    then setInflight (inflight s ++ [mkPending (pending s) (len (pending s))])
           (setIsProcessing true (setProcessingRef true (setTimer None s)))
    else setTimer None s.
Proof.
  intros H1 H2 H3. unfold timer_callback, pause_fires.
  rewrite H1, H2, H3. unfold_setters.
  destruct (_ <? _); cbn [andb]; [|reflexivity].
  destruct (processingRef s) eqn:Hp; cbn [negb andb];
    [now rewrite andb_false_r|].
  destruct (truthy (trim (pending s))) eqn:Ht; cbn [andb]; [|reflexivity].
  now rewrite dispatch_fires.
Qed.

(** The state after a text change, in one equation. *)
Lemma change_restarts (s : State) (t : str) :
  t <> currentTranscript s ->
  let s' := step s (TranscriptChange t) in
  let cursor := Nat.min (lastProcessedLength s) (len t) in
  lastProcessedLength s' = cursor
  /\ currentTranscript s' = t
  /\ timer s'
     = if (25 <=? wordCount (slice cursor t)) && negb (processingRef s)
       then None
       else Some (mkTimer PAUSE_MS t cursor (slice cursor t)).
Proof.
  intros Hne s' cursor. subst s'.
  destruct (Nat.lt_ge_cases (len t) (lastProcessedLength s)) as [Hlt | Hge].
  - rewrite change_shrink by assumption. unfold_setters.
    replace cursor with (len t) by (unfold cursor; lia).
    rewrite slice_beyond by lia. rewrite wordCount_nil. auto.
  - rewrite change_within by assumption.
    replace cursor with (lastProcessedLength s) by (unfold cursor; lia).
    rewrite effect_cursor_within, effect_transcript by exact Hge.
    split; [reflexivity|]. split; [reflexivity|].
    rewrite effect_within by exact Hge. unfold pending. unfold_setters.
    destruct (_ && _); [|reflexivity]. now rewrite dispatch_timer.
Qed.

Lemma elapse_early (s : State) (tm : PauseTimer) (ms : N) :
  timer s = Some tm -> (ms < remaining tm)%N ->
  step s (Elapse ms)
  = setTimer (Some (mkTimer (remaining tm - ms) (seenTranscript tm)
                            (seenProcessed tm) (seenNewText tm))) s.
Proof.
  intros Htm Hms. cbn [step]. rewrite Htm.
  now rewrite (proj2 (N.ltb_lt _ _) Hms).
Qed.

Lemma elapse_due (s : State) (tm : PauseTimer) (ms : N) :
  View s -> timer s = Some tm -> (remaining tm <= ms)%N ->
  step s (Elapse ms)
  = if pause_fires s
    then setInflight (inflight s ++ [mkPending (pending s) (len (pending s))])
           (setIsProcessing true (setProcessingRef true (setTimer None s)))
    else setTimer None s.
Proof.
  intros Hv Htm Hms. cbn [step]. rewrite Htm.
  rewrite (proj2 (N.ltb_ge _ _) Hms).
  destruct (view_timer _ Hv tm Htm) as (H1 & H2 & H3 & _).
  rewrite callback_fires by assumption.
  apply settle_same; now destruct (pause_fires s).
Qed.

Lemma pending_after_change (s : State) (t : str) :
  t <> currentTranscript s ->
  pending (step s (TranscriptChange t))
  = slice (Nat.min (lastProcessedLength s) (len t)) t.
Proof.
  intros Hne. destruct (change_restarts s t Hne) as (Hc & Ht & _).
  unfold pending. now rewrite Hc, Ht.
Qed.

Lemma change_timer (s : State) (t : str) :
  t <> currentTranscript s ->
  let s' := step s (TranscriptChange t) in
  timer s'
  = if (25 <=? wordCount (pending s')) && negb (processingRef s)
    then None
    else Some (mkTimer PAUSE_MS t (lastProcessedLength s') (pending s')).
Proof.
  intros Hne s'. unfold s'. rewrite pending_after_change by exact Hne.
  destruct (change_restarts s t Hne) as (Hc & Ht & Htm).
  now rewrite Hc.
Qed.

(** A change on which the word-count trigger does not dispatch dispatches
    nothing. *)
Lemma change_no_dispatch (s : State) (t : str) :
  t <> currentTranscript s ->
  (25 <=? wordCount (pending (step s (TranscriptChange t))))
  && negb (processingRef s) = false ->
  inflight (step s (TranscriptChange t)) = inflight s.
Proof.
  intros Hne. rewrite pending_after_change by exact Hne. intros Hw.
  destruct (Nat.lt_ge_cases (len t) (lastProcessedLength s)) as [Hlt | Hge].
  - now rewrite change_shrink.
  - rewrite change_within, effect_within by assumption.
    unfold pending. unfold_setters.
    replace (Nat.min (lastProcessedLength s) (len t))
      with (lastProcessedLength s) in Hw by lia.
    now rewrite Hw.
Qed.

Lemma change_then_quiet (s : State) (t : str) (ms : N) :
  t <> currentTranscript s ->
  (25 <=? wordCount (pending (step s (TranscriptChange t))))
  && negb (processingRef s) = false ->
  (ms < PAUSE_MS)%N ->
  inflight (run s [TranscriptChange t; Elapse ms]) = inflight s.
Proof.
  intros Hne Hw Hms. cbn [run fold_left].
  pose proof (change_timer s t Hne) as Htm. cbv zeta in Htm.
  rewrite Hw in Htm.
  rewrite (elapse_early _ _ ms Htm) by exact Hms.
  cbn [inflight setTimer]. now apply change_no_dispatch.
Qed.

(** C9.  The pause trigger is what the effect does when the word-count
    trigger does not dispatch.  A text change cancels the pending
    countdown; where the word-count trigger dispatches on that change no
    countdown is armed, otherwise a fresh single-shot countdown of 3000 ms
    is armed for the new text.  Before the countdown is due nothing happens
    but the passing of time.  When it is due it is gone, and it dispatches the
    pending text exactly if at that moment the text is more than ten code
    units longer than the cursor, the pending text is not blank and no round
    is in flight; otherwise nothing else changes.  After a text change on
    which the word-count trigger does not dispatch, no round is dispatched
    during the next 3000 ms, however long the cancelled countdown had been
    running. *)
Theorem pause_trigger :
  (forall (s : State) (t : str),
      t <> currentTranscript s ->
      let s' := step s (TranscriptChange t) in
      timer s'
      = if (25 <=? wordCount (pending s')) && negb (processingRef s)
        then None
        else Some (mkTimer PAUSE_MS t (lastProcessedLength s') (pending s')))
  /\ PAUSE_MS = 3000%N
  /\ (forall (s : State) (tm : PauseTimer) (ms : N),
        timer s = Some tm -> (ms < remaining tm)%N ->
        step s (Elapse ms)
        = setTimer (Some (mkTimer (remaining tm - ms) (seenTranscript tm)
                                  (seenProcessed tm) (seenNewText tm))) s)
  /\ (forall (s : State) (tm : PauseTimer) (ms : N),
        Inv s -> timer s = Some tm -> (remaining tm <= ms)%N ->
        let s' := step s (Elapse ms) in
        timer s' = None
        /\ (pause_fires s = true ->
            inflight s'
            = inflight s ++ [mkPending (pending s) (len (pending s))]
            /\ processingRef s' = true)
        /\ (pause_fires s = false -> s' = setTimer None s))
  /\ (forall (s : State) (t : str) (ms : N),
        t <> currentTranscript s ->
        (25 <=? wordCount (pending (step s (TranscriptChange t))))
        && negb (processingRef s) = false ->
        (ms < PAUSE_MS)%N ->
        inflight (run s [TranscriptChange t; Elapse ms]) = inflight s).
Proof.
  split; [exact change_timer|]. split; [reflexivity|].
  split; [exact elapse_early|]. split.
  - intros s tm ms [_ Hv] Htm Hms s'. subst s'.
    rewrite (elapse_due s tm ms Hv Htm Hms).
    destruct (pause_fires s); repeat split; try discriminate; auto.
  - exact change_then_quiet.
Qed.

(** Ten words, then three seconds of silence: the pause trigger dispatches
    them.  Ten more words two seconds after the first ten: 2.9 seconds later
    nothing has been dispatched yet. *)
Lemma pause_trigger_witness :
  inflight (run mount [TranscriptChange ten_words; Elapse 3000])
  = [mkPending ten_words (len ten_words)]
  /\ inflight (run (run mount [TranscriptChange ten_words; Elapse 2000])
                 [TranscriptChange (ten_words ++ lit " " ++ ten_words);
                  Elapse 2900])
     = [].
Proof.
  destruct pause_trigger as (_ & _ & _ & Due & Reset).
  split.
  - assert (Hinv : Inv (run mount [TranscriptChange ten_words]))
      by apply reachable_inv.
    refine (proj1 (proj1 (proj2
      (Due (run mount [TranscriptChange ten_words])
           (mkTimer PAUSE_MS ten_words 0 ten_words) 3000%N Hinv _ _)) _)).
    + vm_compute. reflexivity.
    + vm_compute. discriminate.
    + vm_compute. reflexivity.
  - apply (Reset (run mount [TranscriptChange ten_words; Elapse 2000])).
    + vm_compute. discriminate.
    + vm_compute. reflexivity.
    + vm_compute. reflexivity.
Defined.

(** A failed request, in one equation: the suspended call is gone, the two
    flags are clear, everything else is as before. *)
Lemma failure_step (s : State) (k : nat) (p : Pending) (o : FetchOutcome)
    (now : N) :
  inflight s !! k = Some p -> succeeded o = false ->
  step s (FetchSettled k o now)
  = setIsProcessing false
      (setProcessingRef false (setInflight (delete k (inflight s)) s)).
Proof.
  intros Hk Ho. cbn [step]. rewrite Hk, resume_failure by exact Ho.
  now apply settle_same.
Qed.

End Pause.

End HomeProps.

(** ** The transcript accumulator *)

Module RecorderProps.
Import Recorder.

Ltac unfold_setters :=
  unfold setIsRecording, setTranscript, setInterimTranscript,
    setBaseTranscript, setSessionTranscript, setIsRecordingRef,
    setRecognitionRef, setRestartTimeout, setEndRestarts in *;
  cbn [isRecording transcript interimTranscript baseTranscript
       sessionTranscript isRecordingRef recognitionRef restartTimeout
       endRestarts] in *.

Section Sync.

Lemma rec_deps_eqb_refl (s : State) : deps_eqb s s = true.
Proof. unfold deps_eqb. now rewrite !str_eqb_refl. Qed.

Lemma rec_deps_eqb_true (a b : State) :
  deps_eqb a b = true ->
  baseTranscript a = baseTranscript b
  /\ sessionTranscript a = sessionTranscript b
  /\ interimTranscript a = interimTranscript b
  /\ transcript a = transcript b.
Proof.
  unfold deps_eqb. rewrite !andb_true_iff, !str_eqb_eq. tauto.
Qed.

(** The effect touches nothing but [transcript]. *)
Lemma sync_frame (s : State) :
  let s' := fst (sync s) in
  baseTranscript s' = baseTranscript s
  /\ sessionTranscript s' = sessionTranscript s
  /\ interimTranscript s' = interimTranscript s
  /\ isRecording s' = isRecording s
  /\ isRecordingRef s' = isRecordingRef s.
Proof. unfold sync. now destruct (negb _). Qed.

Lemma sync_fullText (s : State) : fullText (fst (sync s)) = fullText s.
Proof. unfold sync. now destruct (negb _). Qed.

(** After the effect the stored transcript is the concatenation. *)
Lemma sync_transcript (s : State) : transcript (fst (sync s)) = fullText s.
Proof.
  unfold sync. destruct (str_eqb (fullText s) (transcript s)) eqn:E; cbn.
  - symmetry. now apply str_eqb_eq.
  - reflexivity.
Qed.

(** The render that follows an update of [transcript] by the effect runs the
    effect again, which then finds nothing to do. *)
Lemma sync_idem (s : State) : sync (fst (sync s)) = (fst (sync s), []).
Proof.
  unfold sync at 1.
  rewrite sync_fullText, sync_transcript, str_eqb_refl. reflexivity.
Qed.

Lemma settle_rerender (prev s : State) : settle prev s = rerender prev s.
Proof.
  unfold settle.
  assert (H : rerender s (fst (rerender prev s)) = (fst (rerender prev s), [])).
  { unfold rerender at 2 3. destruct (deps_eqb prev s); cbn [fst].
    - unfold rerender. now rewrite rec_deps_eqb_refl.
    - unfold rerender.
      destruct (deps_eqb s (fst (sync s))); [reflexivity|apply sync_idem]. }
  rewrite H. cbn [fst snd]. rewrite app_nil_r. now destruct (rerender prev s).
Qed.

Lemma settle_frame (prev s : State) :
  let s' := fst (settle prev s) in
  baseTranscript s' = baseTranscript s
  /\ sessionTranscript s' = sessionTranscript s
  /\ interimTranscript s' = interimTranscript s
  /\ isRecording s' = isRecording s
  /\ isRecordingRef s' = isRecordingRef s.
Proof.
  rewrite settle_rerender. unfold rerender.
  destruct (deps_eqb prev s); [cbn; auto | apply sync_frame].
Qed.

Lemma settle_unchanged (s : State) : settle s s = (s, []).
Proof. rewrite settle_rerender. unfold rerender. now rewrite rec_deps_eqb_refl. Qed.

(** What a settled render tells the parent: nothing, or the one text that
    differs from the stored transcript. *)
Lemma settle_notifies (prev s : State) :
  snd (settle prev s) = []
  \/ (snd (settle prev s) = [fullText s] /\ fullText s <> transcript s).
Proof.
  rewrite settle_rerender. unfold rerender.
  destruct (deps_eqb prev s); [now left|].
  unfold sync. destruct (str_eqb (fullText s) (transcript s)) eqn:E; cbn.
  - now left.
  - right. split; [reflexivity|]. now apply str_eqb_neq.
Qed.

End Sync.

(** *** Recognition results *)

Section Results.

Lemma chunks_from (results : list SpeechResult) :
  forall acc : str * str,
    fold_left
      (fun (acc : str * str) (res : SpeechResult) =>
         if isFinal res
         then (fst acc ++ alternative res, snd acc)
         else (fst acc, snd acc ++ alternative res))
      results acc
    = (fst acc ++ finals results, snd acc ++ interims results).
Proof.
  unfold finals, interims.
  induction results as [|r results IH]; intros [f i]; cbn.
  - now rewrite !app_nil_r.
  - rewrite IH. destruct (isFinal r); cbn; now rewrite <- app_assoc.
Qed.

(** The loop of [onresult] joins the final results into one chunk and the
    others into another, each in the order of arrival. *)
Lemma chunks_spec (results : list SpeechResult) :
  chunks results = (finals results, interims results).
Proof. unfold chunks. now rewrite chunks_from. Qed.

Lemma truthy_false (v : str) : truthy v = false <-> v = [].
Proof. destruct v; cbn; split; congruence. Qed.

Lemma truthy_true (v : str) : truthy v = true <-> v <> [].
Proof. destruct v; cbn; split; congruence. Qed.

(** C7, as the code has it.  For a recognition result that arrives while
    the should-be-listening flag is set: the interim text becomes the
    event's interim chunk, whatever it was; when the event has a final
    chunk, the trimmed chunk is appended to [base], after one space exactly
    when [base] is non-empty and does not end in a space, and [session]
    becomes empty; when it has none, [base] and [session] are as before. *)
Theorem recognition_result (s : State) (results : list SpeechResult) :
  isRecordingRef s = true ->
  let s' := fst (step s (OnResult results)) in
  interimTranscript s' = interims results
  /\ (finals results <> [] ->
      baseTranscript s'
      = baseTranscript s
        ++ (if truthy (baseTranscript s)
               && negb (endsWith_space (baseTranscript s))
            then lit " " else [])
        ++ trim (finals results)
      /\ sessionTranscript s' = [])
  /\ (finals results = [] ->
      baseTranscript s' = baseTranscript s
      /\ sessionTranscript s' = sessionTranscript s).
Proof.
  intros Hrec s'. subst s'. unfold step. cbn [fst react].
  destruct (settle_frame s (onresult results s)) as (Hb & Hs & Hi & _).
  rewrite Hb, Hs, Hi. unfold onresult. rewrite Hrec, chunks_spec.
  cbn [negb fst snd].
  destruct (truthy (finals results)) eqn:Hf.
  - apply truthy_true in Hf. split; [reflexivity|]. split.
    + intros _. split; reflexivity.
    + intros E. contradiction.
  - apply truthy_false in Hf. split; [reflexivity|]. split.
    + intros E. contradiction.
    + intros _. split; reflexivity.
Qed.

Lemma recognition_result_witness :
  isRecordingRef listening = true
  /\ interimTranscript
       (fst (step listening
               (OnResult [mkResult true (lit "once upon");
                          mkResult false (lit "a ti")])))
     = lit "a ti".
Proof.
  split; [reflexivity|].
  exact (proj1 (recognition_result listening
    [mkResult true (lit "once upon"); mkResult false (lit "a ti")] eq_refl)).
Defined.

(** Against C7 as worded, "for every recognition-result event": an event
    that arrives with the flag clear replaces nothing; and what is appended
    is the trimmed chunk, not the chunk (here " hi " after "a" gives
    "a hi"). *)
Lemma recognition_result_counterexample :
  ~ (forall (s : State) (results : list SpeechResult),
        interimTranscript (fst (step s (OnResult results)))
        = snd (chunks results))
  /\ ~ (forall (s : State) (results : list SpeechResult),
          isRecordingRef s = true -> fst (chunks results) <> [] ->
          baseTranscript (fst (step s (OnResult results)))
          = bake (fst (chunks results)) (baseTranscript s)).
Proof.
  split.
  - intros H. specialize (H mount [mkResult false (lit "late")]).
    vm_compute in H. discriminate.
  - intros H.
    specialize (H (fst (step listening (OnResult [mkResult true (lit "a")])))
                  [mkResult true (lit " hi ")] eq_refl).
    vm_compute in H. specialize (H ltac:(discriminate)). discriminate.
Qed.

(** C10.  A recognition result that arrives while the should-be-listening
    flag is clear changes nothing and tells the parent nothing; the flag is
    clear after [stopRecording], so a result delivered after a stop is
    ignored. *)
Theorem late_results_ignored (s : State) (results : list SpeechResult) :
  (isRecordingRef s = false -> step s (OnResult results) = (s, []))
  /\ isRecordingRef (stopRecording s) = false
  /\ step (stopRecording s) (OnResult results) = (stopRecording s, []).
Proof.
  assert (H : forall s0, isRecordingRef s0 = false ->
                         step s0 (OnResult results) = (s0, [])).
  { intros s0 H0. unfold step. cbn [react direct_calls]. unfold onresult.
    rewrite H0. cbn [negb]. now rewrite settle_unchanged. }
  split; [apply H|]. split; [reflexivity|]. now apply H.
Qed.

Lemma late_results_ignored_witness :
  isRecordingRef stopped = false
  /\ step stopped (OnResult [mkResult true (lit "a time")]) = (stopped, []).
Proof.
  split; [reflexivity|].
  exact (proj1 (late_results_ignored stopped
                  [mkResult true (lit "a time")]) eq_refl).
Defined.

End Results.

(** *** What the parent is told *)

Section Notifications.

Lemma react_clear_fullText (s : State) : fullText (clearTranscript s) = [].
Proof. unfold clearTranscript. now destruct (isRecording s). Qed.

Lemma react_clear_transcript (s : State) : transcript (clearTranscript s) = [].
Proof. unfold clearTranscript. now destruct (isRecording s). Qed.

Lemma settle_fullText (prev s : State) :
  fullText (fst (settle prev s)) = fullText s.
Proof.
  destruct (settle_frame prev s) as (Hb & Hs & Hi & _).
  unfold fullText. now rewrite Hb, Hs, Hi.
Qed.

(** Every text passed to the parent is the plain concatenation of the three
    parts as they are after the reaction. *)
Lemma step_notifies_fullText (s : State) (e : Event) (n : str) :
  In n (snd (step s e)) -> n = fullText (fst (step s e)).
Proof.
  unfold step. cbn [fst snd]. rewrite settle_fullText. intros H.
  apply in_app_or in H as [H | H].
  - destruct e; try contradiction. destruct H as [<- | []].
    cbn [react]. now rewrite react_clear_fullText.
  - destruct (settle_notifies s (react s e)) as [E | [E _]];
      rewrite E in H; [contradiction|].
    now destruct H as [<- | []].
Qed.

(** The effect calls the parent at most once, and only with a text that
    differs from the stored transcript. *)
Lemma sync_notifies_changed (prev s : State) (n : str) :
  In n (snd (settle prev s)) ->
  snd (settle prev s) = [n] /\ n = fullText s /\ n <> transcript s.
Proof.
  intros H. destruct (settle_notifies prev s) as [E | [E Hne]];
    rewrite E in H; [contradiction|].
  destruct H as [<- | []]. auto.
Qed.

Lemma settle_synced (prev s : State) :
  synced prev -> synced (fst (settle prev s)).
Proof.
  intros Hp. rewrite settle_rerender. unfold rerender, synced.
  destruct (deps_eqb prev s) eqn:E; cbn [fst].
  - apply rec_deps_eqb_true in E as (Hb & Hs & Hi & Ht).
    unfold synced, fullText in *. congruence.
  - now rewrite sync_transcript, sync_fullText.
Qed.

Lemma settle_latest (prev s : State) :
  transcript (fst (settle prev s)) = latest (snd (settle prev s)) (transcript s).
Proof.
  rewrite settle_rerender. unfold rerender.
  destruct (deps_eqb prev s); [reflexivity|].
  unfold sync. now destruct (negb _).
Qed.

(** No handler but the manual edit and the clearing writes [transcript]. *)
Lemma react_transcript (s : State) (e : Event) :
  is_edit e = false -> e <> ClearClick ->
  transcript (react s e) = transcript s.
Proof.
  intros He Hc. destruct e as [rs | err | | b | b | b | | v];
    try discriminate; try contradiction; cbn [react].
  - unfold onresult. destruct (negb _); [reflexivity|].
    now destruct (truthy _).
  - now destruct err.
  - unfold onend. now destruct (isRecordingRef s).
  - destruct (endRestarts s); [reflexivity|].
    unfold restart_callback, startRecording. cbn.
    destruct (isRecordingRef s); [|reflexivity]. now destruct b.
  - destruct (restartTimeout s); [|reflexivity].
    unfold editRestart_callback, startRecording. now destruct b.
  - unfold toggleRecording, startRecording.
    destruct (isRecording s); [reflexivity|].
    destruct b; [|reflexivity]. cbn. now destruct (isRecordingRef s).
Qed.

(** Short of a manual edit, the stored transcript is what the parent was
    told last. *)
Lemma step_latest (s : State) (e : Event) :
  is_edit e = false ->
  transcript (fst (step s e)) = latest (snd (step s e)) (transcript s).
Proof.
  intros He. unfold step. cbn [fst snd]. rewrite settle_latest.
  unfold latest. rewrite fold_left_app. f_equal.
  destruct e as [rs | err | | b | b | b | | v]; try discriminate;
    try (rewrite react_transcript by (auto; discriminate); reflexivity).
  cbn. apply react_clear_transcript.
Qed.

End Notifications.

End RecorderProps.

(** ** The page *)

Module AppProps.
Import App.

Section Wiring.

(** What an event of the controller does to the text it holds. *)
Lemma home_step_transcript (h : Home.State) (e : Home.Event) :
  Home.currentTranscript (Home.step h e)
  = match e with
    | Home.TranscriptChange t => t
    | _ => Home.currentTranscript h
    end.
Proof.
  destruct e as [t | ms | | c | k o now]; cbn [Home.step].
  - now rewrite HomeProps.settle_transcript.
  - destruct (Home.timer h) as [tm|]; [|reflexivity].
    destruct (ms <? Home.remaining tm)%N; [reflexivity|].
    rewrite HomeProps.settle_transcript.
    apply (HomeProps.callback_frame tm (Home.setTimer None h)).
  - destruct (_ || _); [reflexivity|].
    rewrite HomeProps.settle_transcript. unfold Home.onClick_generate.
    destruct (3 <? _); [apply HomeProps.dispatch_transcript|reflexivity].
  - destruct (0 <? _); [|reflexivity].
    rewrite HomeProps.settle_transcript. now destruct c.
  - destruct (Home.inflight h !! k) as [p|]; [|reflexivity].
    rewrite HomeProps.settle_transcript. unfold Home.resumeGenerateScene.
    destruct o as [|[] [|d]]; try destruct (_ && _); reflexivity.
Qed.

Lemma notify_transcript (ns : list str) :
  forall h : Home.State,
    Home.currentTranscript (notify h ns)
    = Recorder.latest ns (Home.currentTranscript h).
Proof.
  unfold notify, Recorder.latest.
  induction ns as [|n ns IH]; intros h; cbn [fold_left]; [reflexivity|].
  now rewrite IH, home_step_transcript.
Qed.

Lemma notify_inv (ns : list str) :
  forall h : Home.State, Home.Inv h -> Home.Inv (notify h ns).
Proof.
  unfold notify. induction ns as [|n ns IH]; intros h H; cbn [fold_left];
    [exact H|].
  apply IH. now apply HomeProps.step_inv.
Qed.

Lemma step_in_sync (a : State) (e : Event) :
  is_edit e = false -> in_sync a -> in_sync (step a e).
Proof.
  intros He [H1 H2]. destruct e as [ev | ms | | c | k o now]; cbn [step];
    unfold in_sync; cbn [home recorder];
    try (rewrite home_step_transcript; now split).
  split.
  - rewrite notify_transcript, RecorderProps.step_latest by exact He.
    now rewrite H1.
  - unfold Recorder.step. cbn [fst]. now apply RecorderProps.settle_synced.
Qed.

Lemma run_in_sync (evs : list Event) :
  forall a, forallb (fun e => negb (is_edit e)) evs = true ->
            in_sync a -> in_sync (run a evs).
Proof.
  induction evs as [|e evs IH]; intros a He Ha; cbn; [exact Ha|].
  cbn in He. apply andb_prop in He as [He1 He2].
  apply IH; [exact He2|]. apply step_in_sync; [|exact Ha].
  now destruct (is_edit e).
Qed.

Lemma app_run_inv (evs : list Event) :
  forall a, Home.Inv (home a) -> Home.Inv (home (run a evs)).
Proof.
  induction evs as [|e evs IH]; intros a H; cbn; [exact H|].
  apply IH. destruct e as [ev | ms | | c | k o now]; cbn [step home];
    try now apply HomeProps.step_inv.
  now apply notify_inv.
Qed.

End Wiring.

(** *** The text the parent is given *)

Section Authoritative.

(** What the sync effect does.  Short of a manual edit, the text the parent
    holds is the plain concatenation of [base], [session] and [interim],
    with nothing put between the parts.  Every text passed to the parent is
    that concatenation.  The effect passes a text at most once per render,
    and only one that differs from the transcript the recorder has stored. *)
Lemma parent_holds_concatenation :
  (forall evs : list Event,
      forallb (fun e => negb (is_edit e)) evs = true ->
      let a := run mount evs in
      Home.currentTranscript (home a)
      = Recorder.baseTranscript (recorder a)
        ++ Recorder.sessionTranscript (recorder a)
        ++ Recorder.interimTranscript (recorder a))
  /\ (forall (r : Recorder.State) (e : Recorder.Event) (n : str),
        let r' := fst (Recorder.step r e) in
        In n (snd (Recorder.step r e)) ->
        n = Recorder.baseTranscript r' ++ Recorder.sessionTranscript r'
            ++ Recorder.interimTranscript r')
  /\ (forall (prev r : Recorder.State) (n : str),
        In n (snd (Recorder.settle prev r)) ->
        snd (Recorder.settle prev r) = [n]
        /\ n = Recorder.fullText r /\ n <> Recorder.transcript r).
Proof.
  split; [|split].
  - intros evs He a.
    assert (H : in_sync a).
    { apply run_in_sync; [exact He|]. split; reflexivity. }
    destruct H as [H1 H2]. rewrite H1. exact H2.
  - intros r e n r' H. now apply RecorderProps.step_notifies_fullText.
  - exact RecorderProps.sync_notifies_changed.
Qed.

(** C6: the code departs from the claim in two places.  With "hello"
    finalised and "world" interim the parent holds "helloworld": the
    effect joins the parts with nothing between them, while the updater of
    [base] puts a space between the same two chunks when the second one is
    final.  And after a manual edit, which is not passed on, the effect
    passes a text that the parent holds already: "abc" was passed, the edit
    to "ab" was not, and the interim "c" makes the effect pass "abc"
    again. *)
Theorem authoritative_text_divergence :
  (let a := run mount said_hello_world in
   Recorder.baseTranscript (recorder a) = lit "hello"
   /\ Recorder.sessionTranscript (recorder a) = []
   /\ Recorder.interimTranscript (recorder a) = lit "world"
   /\ Home.currentTranscript (home a) = lit "helloworld"
   /\ spec_authoritativeText (recorder a) = lit "hello world"
   /\ Recorder.bake (lit "world") (lit "hello") = lit "hello world")
  /\ (let b := run mount edited_then_resumed in
      Recorder.transcript (recorder b) = lit "ab"
      /\ Home.currentTranscript (home b) = lit "abc"
      /\ snd (Recorder.step (recorder b)
                (Recorder.OnResult [Recorder.mkResult false (lit "c")]))
         = [lit "abc"]).
Proof. vm_compute. repeat split. Qed.

End Authoritative.

(** *** Failed rounds *)

Section Failure.

(** C5.  A request that fails (the fetch rejects, the response is not ok,
    its body is no JSON, or the result is not a success with an image)
    leaves the cursor, the scenes, the text and with it the pending text,
    the countdown and the whole state of the recorder as they were; the
    suspended call is gone, nothing is dispatched in its place, and the
    guard is clear, so that a later trigger can send the pending text. *)
Theorem failed_round_changes_nothing
    (a : State) (k : nat) (p : Home.Pending) (o : Home.FetchOutcome) (now : N) :
  Home.inflight (home a) !! k = Some p ->
  Home.succeeded o = false ->
  let a' := step a (FetchSettled k o now) in
  recorder a' = recorder a
  /\ Home.lastProcessedLength (home a') = Home.lastProcessedLength (home a)
  /\ Home.scenes (home a') = Home.scenes (home a)
  /\ Home.currentTranscript (home a') = Home.currentTranscript (home a)
  /\ Home.pending (home a') = Home.pending (home a)
  /\ Home.timer (home a') = Home.timer (home a)
  /\ Home.inflight (home a') = delete k (Home.inflight (home a))
  /\ Home.processingRef (home a') = false
  /\ Home.isProcessing (home a') = false
  /\ Home.succeeded Home.Rejected = false
  /\ (forall b, Home.succeeded (Home.Response false b) = false)
  /\ Home.succeeded (Home.Response true Home.BadJson) = false
  /\ (forall d, Home.success d = false \/ Home.data_image d = None ->
                Home.succeeded (Home.Response true (Home.Json d)) = false).
Proof.
  intros Hk Ho a'. subst a'. cbn [step home recorder].
  rewrite (HomeProps.failure_step _ k p o now Hk Ho).
  repeat split.
  intros d [Hd | Hd]; cbn; rewrite Hd; [reflexivity|apply andb_false_r].
Qed.

Lemma failed_round_changes_nothing_witness :
  Home.inflight (home fox_narrated) !! 0
  = Some (Home.mkPending Home.fox25 (len Home.fox25))
  /\ Home.succeeded (Home.Response false Home.BadJson) = false
  /\ Home.pending
       (home (step fox_narrated
                (FetchSettled 0 (Home.Response false Home.BadJson) 7%N)))
     = Home.pending (home fox_narrated).
Proof.
  assert (H : Home.inflight (home fox_narrated) !! 0
              = Some (Home.mkPending Home.fox25 (len Home.fox25)))
    by (vm_compute; reflexivity).
  split; [exact H|]. split; [reflexivity|].
  exact (proj1 (proj2 (proj2 (proj2 (proj2
    (failed_round_changes_nothing fox_narrated 0 _
       (Home.Response false Home.BadJson) 7%N H eq_refl)))))).
Defined.

End Failure.

(** *** Clearing *)

Section Clearing.

Lemma recorder_clear (r : Recorder.State) :
  let r' := fst (Recorder.step r Recorder.ClearClick) in
  snd (Recorder.step r Recorder.ClearClick) = [[]]
  /\ Recorder.baseTranscript r' = []
  /\ Recorder.sessionTranscript r' = []
  /\ Recorder.interimTranscript r' = []
  /\ Recorder.transcript r' = [].
Proof.
  unfold Recorder.step. cbn [fst snd Recorder.react Recorder.direct_calls].
  assert (Hn : snd (Recorder.settle r (Recorder.clearTranscript r)) = []).
  { destruct (RecorderProps.settle_notifies r (Recorder.clearTranscript r))
      as [E | [_ E]]; [exact E|].
    rewrite RecorderProps.react_clear_fullText,
      RecorderProps.react_clear_transcript in E. contradiction. }
  destruct (RecorderProps.settle_frame r (Recorder.clearTranscript r))
    as (Hb & Hs & Hi & _).
  rewrite RecorderProps.settle_latest, Hn, Hb, Hs, Hi.
  cbn [app Recorder.latest fold_left].
  rewrite RecorderProps.react_clear_transcript.
  unfold Recorder.clearTranscript.
  now destruct (Recorder.isRecording r).
Qed.

(** The parent on being told the empty text: the shrink guard takes the
    cursor to 0, nothing is dispatched, the scenes stay. *)
Lemma home_told_empty (h : Home.State) :
  Home.lastProcessedLength h <= len (Home.currentTranscript h) ->
  let h' := Home.step h (Home.TranscriptChange []) in
  Home.currentTranscript h' = []
  /\ Home.lastProcessedLength h' = 0
  /\ Home.scenes h' = Home.scenes h
  /\ Home.inflight h' = Home.inflight h.
Proof.
  intros Hle h'. subst h'.
  destruct (decide ([] = Home.currentTranscript h)) as [E | Hne].
  - cbn [Home.step]. rewrite HomeProps.settle_same by (cbn; congruence).
    cbn. rewrite <- E in Hle. cbn in Hle. repeat split. lia.
  - destruct (HomeProps.change_restarts h [] Hne) as (Hc & Ht & _).
    rewrite Hc, Ht. cbn [Home.step]. rewrite HomeProps.settle_scenes.
    split; [reflexivity|]. split; [cbn; lia|]. split; [reflexivity|].
    apply (HomeProps.change_no_dispatch h [] Hne).
    rewrite HomeProps.pending_after_change by exact Hne.
    now rewrite slice_beyond by (cbn; lia).
Qed.

Lemma home_clear_history (h : Home.State) :
  Home.scenes h <> [] ->
  Home.step h (Home.ClearHistoryClick true) = Home.setScenes [] h.
Proof.
  intros Hs. cbn [Home.step]. destruct (Home.scenes h) as [|sc l] eqn:E;
    [contradiction|]. cbn [length Nat.ltb Nat.leb].
  now apply HomeProps.settle_same.
Qed.

(** With the cursor at 0 the whole of a new text is pending. *)
Lemma pending_from_zero (h : Home.State) (t : str) :
  Home.lastProcessedLength h = 0 ->
  Home.currentTranscript h = [] ->
  Home.pending (Home.step h (Home.TranscriptChange t)) = t.
Proof.
  intros Hc Ht. destruct (decide (t = Home.currentTranscript h)) as [E | Hne].
  - cbn [Home.step]. rewrite HomeProps.settle_same by (cbn; congruence).
    unfold Home.pending. cbn. now rewrite Hc.
  - rewrite HomeProps.pending_after_change by exact Hne. now rewrite Hc.
Qed.

(** C8, as the code has it.  There are two clearing actions.  "Clear
    History" empties the scene sequence and nothing else: recorder, text and
    cursor stay.  The recorder's clearing empties [base], [session],
    [interim] and the stored transcript and passes the empty text to the
    parent, whose shrink guard takes the cursor to 0 without a dispatch; the
    scenes stay.  After both, the transcript state, the cursor and the
    scene sequence are empty, and the whole of any text narrated next is
    pending. *)
Theorem clear_actions (a : State) :
  Home.lastProcessedLength (home a) <= len (Home.currentTranscript (home a)) ->
  Home.scenes (home a) <> [] ->
  let a1 := step a (ClearHistoryClick true) in
  let a2 := step a (Rec Recorder.ClearClick) in
  let a3 := run a [Rec Recorder.ClearClick; ClearHistoryClick true] in
  (Home.scenes (home a1) = []
   /\ recorder a1 = recorder a
   /\ Home.lastProcessedLength (home a1) = Home.lastProcessedLength (home a)
   /\ Home.currentTranscript (home a1) = Home.currentTranscript (home a))
  /\ (Recorder.baseTranscript (recorder a2) = []
      /\ Recorder.sessionTranscript (recorder a2) = []
      /\ Recorder.interimTranscript (recorder a2) = []
      /\ Recorder.transcript (recorder a2) = []
      /\ Home.currentTranscript (home a2) = []
      /\ Home.lastProcessedLength (home a2) = 0
      /\ Home.scenes (home a2) = Home.scenes (home a)
      /\ Home.inflight (home a2) = Home.inflight (home a))
  /\ (Recorder.baseTranscript (recorder a3) = []
      /\ Recorder.sessionTranscript (recorder a3) = []
      /\ Recorder.interimTranscript (recorder a3) = []
      /\ Home.currentTranscript (home a3) = []
      /\ Home.lastProcessedLength (home a3) = 0
      /\ Home.scenes (home a3) = []
      /\ forall t : str,
           Home.pending (Home.step (home a3) (Home.TranscriptChange t)) = t).
Proof.
  intros Hle Hsc a1 a2 a3.
  assert (H1 : home a1 = Home.setScenes [] (home a)).
  { unfold a1. cbn [step home]. now apply home_clear_history. }
  destruct (recorder_clear (recorder a)) as (Hn & Rb & Rs & Ri & Rt).
  destruct (home_told_empty (home a) Hle) as (Ht & Hc & Hs & Hi).
  assert (H2 : home a2 = Home.step (home a) (Home.TranscriptChange [])).
  { unfold a2. cbn [step home]. now rewrite Hn. }
  assert (R2 : recorder a2 = fst (Recorder.step (recorder a) Recorder.ClearClick))
    by reflexivity.
  assert (H3 : home a3 = Home.setScenes [] (home a2)).
  { unfold a3. cbn [run fold_left]. fold a2. cbn [step home].
    apply home_clear_history. rewrite H2, Hs. exact Hsc. }
  assert (R3 : recorder a3 = recorder a2) by reflexivity.
  split; [|split].
  - rewrite H1. repeat split.
  - rewrite R2, H2. repeat split; assumption.
  - rewrite R3, R2, H3, H2. cbn [Home.setScenes Home.currentTranscript
      Home.lastProcessedLength Home.scenes].
    repeat split; try assumption.
    intros t. apply pending_from_zero; cbn; assumption.
Qed.

Lemma clear_actions_witness :
  Home.lastProcessedLength (home (run mount fox_told))
  <= len (Home.currentTranscript (home (run mount fox_told)))
  /\ Home.scenes (home (run mount fox_told)) <> []
  /\ Home.lastProcessedLength
       (home (step (run mount fox_told) (Rec Recorder.ClearClick))) = 0.
Proof.
  assert (H1 : Home.lastProcessedLength (home (run mount fox_told))
               <= len (Home.currentTranscript (home (run mount fox_told))))
    by (vm_compute; lia).
  assert (H2 : Home.scenes (home (run mount fox_told)) <> [])
    by (vm_compute; discriminate).
  split; [exact H1|]. split; [exact H2|].
  destruct (clear_actions (run mount fox_told) H1 H2)
    as (_ & (_ & _ & _ & _ & _ & H & _) & _).
  exact H.
Defined.

(** Against C8 as worded, for either action.  After "Clear History" the
    cursor still stands at the end of the narrated text and the transcript
    is still there; after the recorder's clearing the scene is still
    there. *)
Lemma clear_actions_counterexample :
  ~ (forall evs : list Event,
        let a := run mount (evs ++ [ClearHistoryClick true]) in
        Home.scenes (home a) = []
        /\ Home.lastProcessedLength (home a) = 0
        /\ Recorder.baseTranscript (recorder a) = [])
  /\ ~ (forall evs : list Event,
          let a := run mount (evs ++ [Rec Recorder.ClearClick]) in
          Home.scenes (home a) = []
          /\ Home.lastProcessedLength (home a) = 0
          /\ Recorder.baseTranscript (recorder a) = []).
Proof.
  split; intros H; specialize (H fox_told); vm_compute in H.
  - destruct H as (_ & H & _). discriminate.
  - destruct H as (H & _). discriminate.
Qed.

End Clearing.

(** *** A story from end to end *)

Section Story.

(** The text of [fox25] is narrated and finalised: its 25 words are
    dispatched at once; the illustration arrives: the cursor stands at the
    end of the text and one scene with that narrative was appended. *)
Example fox_story :
  wordCount Home.fox25 = 25
  /\ Home.inflight (home fox_narrated)
     = [Home.mkPending Home.fox25 (len Home.fox25)]
  /\ Home.lastProcessedLength (home (run mount fox_told)) = len Home.fox25
  /\ Home.pending (home (run mount fox_told)) = []
  /\ Home.scenes (home (run mount fox_told))
     = [Home.mkScene (lit "https://img/1") (Some Home.fox25) 1%N]
  /\ Home.inflight (home (run mount fox_told)) = [].
Proof. vm_compute. repeat split. Qed.

End Story.

End AppProps.

(** * Further properties *)

(** ** The controller *)

Module HomeMore.
Import Home.

Section Reachable.

(** X1.  In every reachable state the cursor lies within the text, the
    [isProcessing] state shows what the guard cell holds, and a pending
    countdown was armed for the text and the cursor of that state: its
    closure never reads stale values. *)
Theorem reachable_cursor_and_countdown (evs : list Event) :
  let s := run mount evs in
  lastProcessedLength s <= len (currentTranscript s)
  /\ isProcessing s = processingRef s
  /\ forall tm, timer s = Some tm ->
       seenTranscript tm = currentTranscript s
       /\ seenProcessed tm = lastProcessedLength s
       /\ seenNewText tm = slice (lastProcessedLength s) (currentTranscript s)
       /\ (remaining tm <= 3000)%N.
Proof.
  intros s. destruct (HomeProps.reachable_inv evs) as [Hc Hv]. fold s in Hc, Hv.
  split; [apply (view_cursor _ Hv)|]. split; [apply (core_shown _ Hc)|].
  intros tm Htm. exact (view_timer _ Hv tm Htm).
Qed.

Lemma reachable_cursor_and_countdown_witness :
  timer (run mount [TranscriptChange ten_words])
  = Some (mkTimer 3000 ten_words 0 ten_words)
  /\ seenNewText (mkTimer 3000 ten_words 0 ten_words)
     = slice (lastProcessedLength (run mount [TranscriptChange ten_words]))
             (currentTranscript (run mount [TranscriptChange ten_words])).
Proof.
  assert (H : timer (run mount [TranscriptChange ten_words])
              = Some (mkTimer 3000 ten_words 0 ten_words))
    by (vm_compute; reflexivity).
  split; [exact H|].
  exact (proj1 (proj2 (proj2
    (proj2 (proj2 (reachable_cursor_and_countdown [TranscriptChange ten_words]))
       _ H)))).
Defined.

(** X2.  No trigger path ever sends a blank text: in every reachable state
    the text of a suspended request has something but white space in it,
    and the length the request will commit is the length of that text. *)
Theorem never_dispatches_blank (evs : list Event) (p : Pending) :
  In p (inflight (run mount evs)) ->
  trim (text p) <> [] /\ lengthProcessed p = len (text p).
Proof.
  intros Hin. destruct (HomeProps.reachable_inv evs) as [Hc _].
  pose proof (core_frames _ Hc) as F. rewrite List.Forall_forall in F.
  destruct (F p Hin) as [H1 H2]. split; [|exact H1].
  intros E. rewrite E in H2. discriminate.
Qed.

Lemma never_dispatches_blank_witness :
  In (mkPending fox25 (len fox25))
     (inflight (run mount [TranscriptChange fox25]))
  /\ trim fox25 <> [].
Proof.
  assert (H : In (mkPending fox25 (len fox25))
                 (inflight (run mount [TranscriptChange fox25])))
    by (vm_compute; now left).
  split; [exact H|].
  exact (proj1 (never_dispatches_blank [TranscriptChange fox25] _ H)).
Defined.

End Reachable.

Section Scenes.

(** What one step can do to the scenes. *)
Lemma scenes_step_cases (s : State) (e : Event) :
  scenes (step s e) = scenes s
  \/ (exists k p d img now,
        e = FetchSettled k (Response true (Json d)) now
        /\ inflight s !! k = Some p
        /\ success d = true /\ data_image d = Some img /\ img <> []
        /\ scenes (step s e)
           = scenes s ++ [mkScene img (data_narrative d) now])
  \/ (e = ClearHistoryClick true /\ scenes (step s e) = []).
Proof.
  destruct e as [t | ms | | c | k o now]; cbn [step].
  - left. now rewrite HomeProps.settle_scenes.
  - left. destruct (timer s) as [tm|]; [|reflexivity].
    destruct (ms <? remaining tm)%N; [reflexivity|].
    rewrite HomeProps.settle_scenes.
    apply (HomeProps.callback_frame tm (setTimer None s)).
  - left. destruct (_ || _); [reflexivity|].
    rewrite HomeProps.settle_scenes. unfold onClick_generate.
    destruct (3 <? _); [apply HomeProps.dispatch_scenes|reflexivity].
  - destruct (0 <? _); [|now left].
    rewrite HomeProps.settle_scenes. destruct c; cbn; auto.
  - destruct (inflight s !! k) as [p|] eqn:Hk; [|now left].
    rewrite HomeProps.settle_scenes. unfold resumeGenerateScene.
    destruct o as [|[] [|d]]; try (now left).
    destruct (success d) eqn:Hs; cbn [andb]; [|now left].
    destruct (data_image d) as [img|] eqn:Hi; cbn [truthy_opt]; [|now left].
    destruct (truthy img) eqn:Ht; [|now left].
    right. left. exists k, p, d, img, now. cbn.
    repeat split; auto. intros E. rewrite E in Ht. discriminate.
Qed.

(** X3.  The scene sequence is append-only: a step leaves it as it is,
    appends one scene at the end (a successful round; the scene's image and
    narrative are those of the response and its id is the time of arrival),
    or empties it ("Clear History", confirmed).  No step reorders, changes
    or drops single scenes. *)
Theorem scenes_append_only (s : State) (e : Event) :
  scenes (step s e) = scenes s
  \/ (exists k p d img now,
        e = FetchSettled k (Response true (Json d)) now
        /\ inflight s !! k = Some p
        /\ success d = true /\ data_image d = Some img /\ img <> []
        /\ scenes (step s e)
           = scenes s ++ [mkScene img (data_narrative d) now])
  \/ (e = ClearHistoryClick true /\ scenes (step s e) = []).
Proof. apply scenes_step_cases. Qed.

Lemma scenes_images (evs : list Event) :
  forall s, Forall (fun sc => image sc <> []) (scenes s) ->
            Forall (fun sc => image sc <> []) (scenes (run s evs)).
Proof.
  induction evs as [|e evs IH]; intros s H; cbn; [exact H|].
  apply IH.
  destruct (scenes_step_cases s e)
    as [E | [(k & p & d & img & now & _ & _ & _ & _ & Hi & E) | [_ E]]];
    rewrite E; auto.
  apply Forall_app. split; [exact H|]. now constructor.
Qed.

(** X4.  Every scene in a reachable state has a non-empty image
    reference. *)
Theorem scenes_have_images (evs : list Event) (sc : Scene) :
  In sc (scenes (run mount evs)) -> image sc <> [].
Proof.
  intros Hin.
  assert (H : Forall (fun sc => image sc <> []) (scenes (run mount evs))).
  { apply scenes_images. cbn. constructor. }
  rewrite List.Forall_forall in H. now apply H.
Qed.

Lemma scenes_have_images_witness :
  In (mkScene (lit "https://img/1") (Some fox25) 1%N)
     (scenes (run mount [TranscriptChange fox25;
                         FetchSettled 0 (illustrated fox25) 1%N]))
  /\ lit "https://img/1" <> [].
Proof.
  assert (H : In (mkScene (lit "https://img/1") (Some fox25) 1%N)
                 (scenes (run mount [TranscriptChange fox25;
                                     FetchSettled 0 (illustrated fox25) 1%N])))
    by (vm_compute; now left).
  split; [exact H|].
  exact (scenes_have_images _ _ H).
Defined.

End Scenes.

Section Manual.

Lemma long_trim_truthy (t : str) : 3 < len (trim t) -> truthy (trim t) = true.
Proof. destruct (trim t); cbn; [lia|reflexivity]. Qed.

Lemma long_trim_nonempty (n : nat) (t : str) : 3 < len (trim (slice n t)) -> t <> [].
Proof.
  intros H ->. unfold slice in H. rewrite drop_nil in H. cbn in H. lia.
Qed.

Lemma nonempty_len (t : str) : t <> [] -> (len t =? 0) = false.
Proof. destruct t; [contradiction|reflexivity]. Qed.

(** X5.  The manual trigger looks at neither the word count nor the pause:
    when the button is enabled, no round is in flight and the pending text,
    trimmed, is longer than three code units, the click dispatches the
    pending text; when the trimmed pending text has three code units or
    fewer, the button is disabled (a round is shown in flight, or there is
    no text), or the guard is set, the click changes nothing. *)
Theorem manual_trigger (s : State) :
  (isProcessing s = false -> processingRef s = false ->
   3 < len (trim (pending s)) ->
   step s GenerateClick
   = setInflight (inflight s ++ [mkPending (pending s) (len (pending s))])
       (setIsProcessing true (setProcessingRef true s)))
  /\ (len (trim (pending s)) <= 3 \/ isProcessing s = true
      \/ currentTranscript s = [] \/ processingRef s = true ->
      step s GenerateClick = s).
Proof.
  split.
  - intros Hi Hp Hlen. cbn [step]. rewrite Hi. cbn [orb].
    pose proof (long_trim_nonempty _ _ Hlen) as Hne.
    rewrite (nonempty_len _ Hne).
    unfold onClick_generate. fold (pending s).
    rewrite (proj2 (Nat.ltb_lt _ _) Hlen).
    rewrite HomeProps.dispatch_fires by (auto using long_trim_truthy).
    now apply HomeProps.settle_same.
  - intros H. cbn [step].
    destruct (isProcessing s || (len (currentTranscript s) =? 0)) eqn:Hd;
      [reflexivity|].
    apply orb_false_elim in Hd as [Hi Hl].
    unfold onClick_generate. fold (pending s).
    destruct (Nat.ltb_spec 3 (len (trim (pending s)))) as [Hlt | Hge].
    + destruct H as [H | [H | [H | H]]]; try lia; try congruence.
      * rewrite H in Hl. discriminate.
      * rewrite HomeProps.dispatch_guarded by exact H.
        now apply HomeProps.settle_same.
    + now apply HomeProps.settle_same.
Qed.

Lemma manual_trigger_witness :
  isProcessing typed_abcd = false /\ processingRef typed_abcd = false
  /\ 3 < len (trim (pending typed_abcd))
  /\ inflight (step typed_abcd GenerateClick) = [mkPending (lit "abcd") 4].
Proof.
  assert (H : 3 < len (trim (pending typed_abcd))) by (vm_compute; lia).
  split; [reflexivity|]. split; [reflexivity|]. split; [exact H|].
  rewrite (proj1 (manual_trigger typed_abcd) eq_refl eq_refl H).
  reflexivity.
Defined.

(** X6.  A failed round can be tried again by hand: after the failure
    nothing is in flight, the pending text is what it was, and a click on
    the manual trigger sends it again. *)
Theorem failed_text_can_be_sent_again
    (s : State) (p : Pending) (o : FetchOutcome) (now : N) :
  inflight s = [p] -> succeeded o = false ->
  3 < len (trim (pending s)) ->
  let s1 := step s (FetchSettled 0 o now) in
  inflight s1 = [] /\ pending s1 = pending s
  /\ inflight (step s1 GenerateClick)
     = [mkPending (pending s) (len (pending s))].
Proof.
  intros Hp Ho Hlen s1.
  assert (E : s1 = setIsProcessing false
                     (setProcessingRef false (setInflight [] s))).
  { unfold s1. rewrite (HomeProps.failure_step s 0 p o now);
      rewrite ?Hp; auto. }
  rewrite E. split; [reflexivity|]. split; [reflexivity|].
  cbn [step isProcessing setIsProcessing orb].
  pose proof (long_trim_nonempty _ _ Hlen) as Hne.
  cbn [currentTranscript setIsProcessing setProcessingRef setInflight].
  rewrite (nonempty_len _ Hne).
  unfold onClick_generate.
  cbn [currentTranscript lastProcessedLength setIsProcessing setProcessingRef
       setInflight].
  fold (pending s). rewrite (proj2 (Nat.ltb_lt _ _) Hlen).
  rewrite HomeProps.dispatch_fires by (auto using long_trim_truthy).
  rewrite HomeProps.settle_same by reflexivity. reflexivity.
Qed.

Lemma failed_text_can_be_sent_again_witness :
  inflight fox_in_flight = [mkPending fox25 (len fox25)]
  /\ succeeded Rejected = false
  /\ 3 < len (trim (pending fox_in_flight))
  /\ inflight (step (step fox_in_flight (FetchSettled 0 Rejected 5%N))
                    GenerateClick)
     = [mkPending fox25 (len fox25)].
Proof.
  assert (H1 : inflight fox_in_flight = [mkPending fox25 (len fox25)])
    by (vm_compute; reflexivity).
  assert (H3 : 3 < len (trim (pending fox_in_flight))) by (vm_compute; lia).
  split; [exact H1|]. split; [reflexivity|]. split; [exact H3|].
  exact (proj2 (proj2 (failed_text_can_be_sent_again fox_in_flight _ Rejected
                         5%N H1 eq_refl H3))).
Defined.

End Manual.

Section Words.

Lemma count_tokens_length (s : str) :
  2 * count_tokens_from true s <= length s + 1
  /\ 2 * count_tokens_from false s <= length s.
Proof.
  induction s as [|c r [IH1 IH2]]; cbn [count_tokens_from length]; [lia|].
  destruct (is_ws c); lia.
Qed.

(** X7.  Words need room: a text with [n] words has at least [2n - 1] code
    units, so the text that the word-count trigger sends has at least
    49. *)
Theorem wordCount_length (t : str) :
  2 * wordCount t <= len t + 1 /\ (25 <= wordCount t -> 49 <= len t).
Proof.
  rewrite wordCount_count_tokens. unfold count_tokens, len.
  destruct (count_tokens_length t) as [H _]. lia.
Qed.

Lemma wordCount_length_witness : 25 <= wordCount fox25 /\ 49 <= len fox25.
Proof.
  assert (H : 25 <= wordCount fox25) by (vm_compute; lia).
  split; [exact H|]. exact (proj2 (wordCount_length fox25) H).
Defined.

End Words.

Section Cursor.

(** X8.  The law of the cursor, for a state whose cursor lies within the
    text: a text change clamps it to the new length when that is shorter; a
    successful round adds the length captured at its dispatch, clamped to
    the length of the text as it is by then; nothing else moves it. *)
Theorem cursor_law (s : State) (e : Event) :
  lastProcessedLength s <= len (currentTranscript s) ->
  lastProcessedLength (step s e)
  = match e with
    | TranscriptChange t => Nat.min (lastProcessedLength s) (len t)
    | FetchSettled k o _ =>
        match inflight s !! k with
        | Some p =>
            if succeeded o
            then Nat.min (lastProcessedLength s + lengthProcessed p)
                         (len (currentTranscript s))
            else lastProcessedLength s
        | None => lastProcessedLength s
        end
    | _ => lastProcessedLength s
    end.
Proof.
  intros Hle. destruct e as [t | ms | | c | k o now]; cbn [step].
  - rewrite HomeProps.settle_cursor. cbn [lastProcessedLength currentTranscript
                                 setCurrentTranscript].
    destruct (deps_eqb s _) eqn:E; [|reflexivity].
    apply HomeProps.deps_eqb_true in E as [E _]. cbn in E. rewrite <- E. lia.
  - destruct (timer s) as [tm|]; [|reflexivity].
    destruct (ms <? remaining tm)%N; [reflexivity|].
    destruct (HomeProps.callback_frame tm (setTimer None s))
      as (_ & Ht & Hp & _).
    rewrite HomeProps.settle_same by (symmetry; assumption). exact Hp.
  - destruct (_ || _); [reflexivity|].
    unfold onClick_generate. destruct (3 <? _).
    + rewrite HomeProps.settle_same
        by (now rewrite ?HomeProps.dispatch_transcript,
                        ?HomeProps.dispatch_cursor).
      apply HomeProps.dispatch_cursor.
    + now rewrite HomeProps.settle_same.
  - destruct (0 <? _); [|reflexivity].
    rewrite HomeProps.settle_same by (now destruct c). now destruct c.
  - destruct (inflight s !! k) as [p|] eqn:Hk; [|reflexivity].
    destruct (succeeded o) eqn:Ho.
    + destruct (HomeProps.resume_success p o now
                  (setInflight (delete k (inflight s)) s) Ho) as [sc ->].
      rewrite HomeProps.settle_cursor.
      cbn [lastProcessedLength currentTranscript setIsProcessing
           setProcessingRef setLastProcessedLength setScenes setInflight].
      destruct (deps_eqb s _) eqn:E; [|reflexivity].
      apply HomeProps.deps_eqb_true in E as [_ E]. cbn in E. lia.
    + rewrite (HomeProps.resume_failure p o now _ Ho).
      now rewrite HomeProps.settle_same.
Qed.

Lemma cursor_law_witness :
  lastProcessedLength fox_cut <= len (currentTranscript fox_cut)
  /\ lastProcessedLength
       (step fox_cut (FetchSettled 0 (illustrated fox25) 1%N))
     = 9.
Proof.
  assert (H : lastProcessedLength fox_cut <= len (currentTranscript fox_cut))
    by (vm_compute; lia).
  split; [exact H|].
  rewrite (cursor_law fox_cut (FetchSettled 0 (illustrated fox25) 1%N) H).
  vm_compute. reflexivity.
Defined.

End Cursor.

End HomeMore.

(** ** The recorder *)

Module RecorderMore.
Import Recorder.

Section Fields.

(** The effect writes nothing but [transcript]. *)
Lemma settle_only_transcript (prev s : State) :
  fst (settle prev s) = setTranscript (transcript (fst (settle prev s))) s.
Proof.
  rewrite RecorderProps.settle_rerender. unfold rerender.
  destruct (deps_eqb prev s); cbn [fst]; [now destruct s|].
  unfold sync. destruct (negb _); cbn [fst]; now destruct s.
Qed.

Lemma step_only_transcript (s : State) (e : Event) :
  fst (step s e) = setTranscript (transcript (fst (step s e))) (react s e).
Proof. unfold step. cbn [fst]. apply settle_only_transcript. Qed.

Lemma react_session (s : State) (e : Event) :
  sessionTranscript s = [] -> sessionTranscript (react s e) = [].
Proof.
  intros H. destruct e as [rs | err | | b | b | b | | v]; cbn [react].
  - unfold onresult. destruct (negb _); [exact H|].
    now destruct (truthy _).
  - now destruct err.
  - unfold onend. now destruct (isRecordingRef s).
  - destruct (endRestarts s); [exact H|].
    unfold restart_callback, startRecording. cbn.
    destruct (isRecordingRef s); [|exact H]. now destruct b.
  - destruct (restartTimeout s); [|exact H].
    unfold editRestart_callback, startRecording. now destruct b.
  - unfold toggleRecording, startRecording.
    destruct (isRecording s); [reflexivity|].
    destruct b; [|exact H]. cbn. now destruct (isRecordingRef s).
  - unfold clearTranscript. now destruct (isRecording s).
  - unfold handleManualEdit. destruct (isRecording s); [|reflexivity].
    now destruct (recognitionRef _).
Qed.

Lemma run_synced (evs : list Event) :
  forall s, synced s -> sessionTranscript s = [] ->
            synced (run s evs) /\ sessionTranscript (run s evs) = [].
Proof.
  induction evs as [|e evs IH]; intros s H1 H2; [cbn; auto|].
  unfold run. cbn [fold_left]. apply IH.
  - unfold step. cbn [fst]. now apply RecorderProps.settle_synced.
  - unfold step. cbn [fst].
    destruct (RecorderProps.settle_frame s (react s e)) as (_ & -> & _).
    now apply react_session.
Qed.

(** X9.  In every reachable state the text in the box is the
    concatenation of [base] and [interim]; [session] is empty throughout:
    no handler ever stores anything in it. *)
Theorem transcript_is_concatenation (evs : list Event) :
  let s := run mount evs in
  transcript s = baseTranscript s ++ interimTranscript s
  /\ sessionTranscript s = [].
Proof.
  intros s. destruct (run_synced evs mount) as [H1 H2]; try reflexivity.
  fold s in H1, H2. split; [|exact H2].
  unfold synced, fullText in H1. now rewrite H2 in H1.
Qed.

End Fields.

Section Baking.

Lemma count_tokens_after_ws (a : str) (c : N) (b : str) :
  is_ws c = true ->
  forall f, count_tokens_from f ((a ++ [c]) ++ b)
            = count_tokens_from f (a ++ [c]) + count_tokens_from true b.
Proof.
  intros Hc. induction a as [|x a IH]; intros f; cbn.
  - now rewrite Hc.
  - destruct (is_ws x); rewrite IH; lia.
Qed.

Lemma endsWith_space_snoc (b : str) :
  endsWith_space b = true -> exists a, b = a ++ [32%N].
Proof.
  unfold endsWith_space. destruct (rev b) as [|c l] eqn:E; [discriminate|].
  intros Hc. apply N.eqb_eq in Hc. subst c. exists (rev l).
  rewrite <- (rev_involutive b), E. reflexivity.
Qed.

Lemma count_tokens_bake (t b : str) :
  count_tokens (bake t b) = count_tokens b + count_tokens t.
Proof.
  unfold bake, count_tokens.
  destruct b as [|x b']; [reflexivity|].
  change (truthy (x :: b')) with true. cbn [andb].
  destruct (endsWith_space (x :: b')) eqn:E; cbn [negb].
  - destruct (endsWith_space_snoc _ E) as [a ->].
    change ([] ++ t) with t. now apply count_tokens_after_ws.
  - change (lit " ") with [32%N].
    rewrite app_assoc, count_tokens_after_ws by reflexivity.
    now rewrite (count_tokens_ws_suffix [32%N]).
Qed.

Lemma wordCount_trim (t : str) : wordCount (trim t) = wordCount t.
Proof.
  rewrite !wordCount_count_tokens. unfold count_tokens, trim.
  now rewrite count_tokens_trimEnd, count_tokens_trimStart.
Qed.

Lemma wordCount_bake (t b : str) :
  wordCount (bake t b) = wordCount b + wordCount t.
Proof. rewrite !wordCount_count_tokens. apply count_tokens_bake. Qed.

Lemma bake_extends (t b : str) : exists rest, bake t b = b ++ rest.
Proof. unfold bake. eauto. Qed.

Lemma split_go_words (s : str) :
  forall (in_sep : bool) (cur : str),
    (in_sep = true -> cur = []) ->
    List.filter (fun w : str => 0 <? len w) (split_go in_sep cur s)
    = tokens_from cur s.
Proof.
  induction s as [|c r IH]; intros in_sep cur Hsep; cbn [split_go tokens_from].
  - now destruct cur.
  - destruct (is_ws c).
    + destruct in_sep.
      * rewrite (Hsep eq_refl). cbn [is_empty]. now apply IH.
      * cbn [List.filter]. rewrite IH by reflexivity. now destruct cur.
    + apply IH. discriminate.
Qed.

Lemma tokens_ws_only (w : str) :
  forallb is_ws w = true -> tokens_from [] w = [].
Proof.
  induction w as [|c w IH]; cbn [forallb tokens_from is_empty];
    [reflexivity|].
  intros H. apply andb_prop in H as [-> H]. now apply IH.
Qed.

(** White space ends a word: what comes after it is read afresh. *)
Lemma tokens_cut (a : str) (c : N) (r : str) :
  is_ws c = true ->
  forall cur, tokens_from cur (a ++ c :: r)
              = tokens_from cur a ++ tokens_from [] r.
Proof.
  intros Hc. induction a as [|x a IH]; intros cur; cbn [app tokens_from].
  - rewrite Hc. now destruct (is_empty cur).
  - destruct (is_ws x); [|apply IH].
    rewrite IH. now destruct (is_empty cur).
Qed.

Lemma tokens_ws_prefix (w s : str) :
  forallb is_ws w = true -> tokens_from [] (w ++ s) = tokens_from [] s.
Proof.
  induction w as [|c w IH]; cbn [forallb app tokens_from is_empty];
    [reflexivity|].
  intros H. apply andb_prop in H as [-> H]. now apply IH.
Qed.

Lemma tokens_ws_suffix (w : str) :
  forallb is_ws w = true ->
  forall s cur, tokens_from cur (s ++ w) = tokens_from cur s.
Proof.
  intros Hw s cur. destruct w as [|c w]; [now rewrite app_nil_r|].
  cbn [forallb] in Hw. apply andb_prop in Hw as [Hc Hw].
  rewrite (tokens_cut s c w Hc), (tokens_ws_only w Hw). apply app_nil_r.
Qed.

Lemma tokens_trim (s : str) : tokens_from [] (trim s) = tokens_from [] s.
Proof.
  unfold trim, trimEnd.
  destruct (trimStart_split s) as [w [Hw Hall]].
  destruct (trimStart_split (rev (trimStart s))) as [v [Hv Hvall]].
  assert (Hs : trimStart s = rev (trimStart (rev (trimStart s))) ++ rev v).
  { rewrite <- rev_app_distr, <- Hv. symmetry. apply rev_involutive. }
  rewrite Hw at 2. rewrite (tokens_ws_prefix w _ Hall).
  rewrite Hs at 2. symmetry. apply tokens_ws_suffix.
  now rewrite forallb_rev.
Qed.

(** The words of a text are its tokens. *)
Lemma words_tokens (t : str) : words t = tokens_from [] t.
Proof.
  unfold words, split_ws. rewrite split_go_words by discriminate.
  apply tokens_trim.
Qed.

Lemma words_trim (t : str) : words (trim t) = words t.
Proof. now rewrite !words_tokens, tokens_trim. Qed.

Lemma words_bake (t b : str) : words (bake t b) = words b ++ words t.
Proof.
  rewrite !words_tokens. unfold bake.
  destruct b as [|x b']; [reflexivity|].
  change (truthy (x :: b')) with true. cbn [andb].
  destruct (endsWith_space (x :: b')) eqn:E; cbn [negb].
  - destruct (endsWith_space_snoc _ E) as [a ->].
    change ([] ++ t) with t. rewrite <- app_assoc.
    change ([32%N] ++ t) with (32%N :: t).
    rewrite (tokens_cut a 32 t eq_refl), (tokens_cut a 32 [] eq_refl).
    cbn [tokens_from is_empty]. now rewrite app_nil_r.
  - change (lit " ") with [32%N]. change ([32%N] ++ t) with (32%N :: t).
    apply (tokens_cut (x :: b') 32 t eq_refl).
Qed.

(** X10.  Baking a chunk into [base] neither merges, splits nor changes
    words: the words of the new [base] are the words of the old one
    followed by the words of the chunk, in that order, and the old [base]
    is its beginning. *)
Theorem bake_keeps_words (t b : str) :
  words (bake t b) = words b ++ words t
  /\ wordCount (bake t b) = wordCount b + wordCount t
  /\ exists rest, bake t b = b ++ rest.
Proof.
  split; [apply words_bake|].
  split; [apply wordCount_bake | apply bake_extends].
Qed.

Lemma onresult_final (c : str) (s : State) :
  isRecordingRef s = true ->
  let s' := fst (step s (final_result c)) in
  isRecordingRef s' = true
  /\ interimTranscript s' = []
  /\ baseTranscript s'
     = if truthy c then bake (trim c) (baseTranscript s) else baseTranscript s.
Proof.
  intros Hrec. cbv zeta. unfold step, final_result. cbn [fst react].
  destruct (RecorderProps.settle_frame s
              (onresult [mkResult true c] s)) as (-> & _ & -> & _ & ->).
  unfold onresult. rewrite Hrec, RecorderProps.chunks_spec.
  cbn [negb fst snd]. unfold finals, interims.
  cbn [List.filter isFinal map alternative List.concat negb].
  rewrite app_nil_r. destruct (truthy c); repeat split; exact Hrec.
Qed.

(** X11.  A run of final results while listening: [base] grows at its end
    only, and its words are the words it had followed by the words of the
    chunks, chunk after chunk, none lost, changed or merged with another;
    and nothing interim is left. *)
Theorem finals_accumulate (chunks : list str) :
  forall s, isRecordingRef s = true ->
    let s' := run s (map final_result chunks) in
    words (baseTranscript s')
    = words (baseTranscript s) ++ List.concat (map words chunks)
    /\ wordCount (baseTranscript s')
       = wordCount (baseTranscript s) + sum_list (map wordCount chunks)
    /\ (exists rest, baseTranscript s' = baseTranscript s ++ rest)
    /\ (chunks <> [] -> interimTranscript s' = []).
Proof.
  induction chunks as [|c chunks IH]; intros s Hrec; cbn [map run fold_left].
  - cbn. rewrite app_nil_r. split; [reflexivity|]. split; [lia|].
    split; [exists []; now rewrite app_nil_r|]. congruence.
  - destruct (onresult_final c s Hrec) as (H1 & H2 & H3).
    destruct (IH _ H1) as (I0 & I1 & [rest I2] & I3).
    unfold run in I0, I1, I2, I3.
    cbv zeta. rewrite I0, I1, I2, H3.
    change (sum_list (wordCount c :: map wordCount chunks))
      with (wordCount c + sum_list (map wordCount chunks)).
    cbn [List.concat].
    split; [|split; [|split]].
    + destruct (truthy c) eqn:Hc.
      * now rewrite words_bake, words_trim, app_assoc.
      * apply RecorderProps.truthy_false in Hc. subst c. reflexivity.
    + destruct (truthy c) eqn:Hc.
      * rewrite wordCount_bake, wordCount_trim.
        lia.
      * apply RecorderProps.truthy_false in Hc. subst c.
        change (wordCount []) with 0. lia.
    + destruct (truthy c).
      * destruct (bake_extends (trim c) (baseTranscript s)) as [r ->].
        exists (r ++ rest). now rewrite app_assoc.
      * eauto.
    + intros _. destruct chunks as [|c' chunks']; [exact H2|].
      apply I3. discriminate.
Qed.

Lemma finals_accumulate_witness :
  isRecordingRef listening = true
  /\ words
       (baseTranscript
          (run listening
             (map final_result [lit "once upon "; lit " a time"])))
     = [lit "once"; lit "upon"; lit "a"; lit "time"].
Proof.
  split; [reflexivity|].
  exact (proj1 (finals_accumulate [lit "once upon "; lit " a time"]
                  listening eq_refl)).
Defined.

End Baking.

Section Stopping.

(** The fields that the effect leaves alone. *)
Lemma step_fields (s : State) (e : Event) :
  let s' := fst (step s e) in
  isRecording s' = isRecording (react s e)
  /\ isRecordingRef s' = isRecordingRef (react s e)
  /\ recognitionRef s' = recognitionRef (react s e)
  /\ restartTimeout s' = restartTimeout (react s e)
  /\ endRestarts s' = endRestarts (react s e)
  /\ baseTranscript s' = baseTranscript (react s e)
  /\ sessionTranscript s' = sessionTranscript (react s e)
  /\ interimTranscript s' = interimTranscript (react s e).
Proof. cbv zeta. rewrite step_only_transcript. now repeat split. Qed.

Lemma settle_quiet (prev s : State) :
  baseTranscript prev = baseTranscript s ->
  sessionTranscript prev = sessionTranscript s ->
  interimTranscript prev = interimTranscript s ->
  transcript prev = transcript s ->
  settle prev s = (s, []).
Proof.
  intros H1 H2 H3 H4. rewrite RecorderProps.settle_rerender. unfold rerender.
  unfold deps_eqb. rewrite H1, H2, H3, H4, !str_eqb_refl. reflexivity.
Qed.

(** An engine event that finds the flag clear. *)
Lemma engine_step_quiet (s : State) (e : Event) :
  engine_event e = true -> isRecordingRef s = false ->
  let s' := fst (step s e) in
  snd (step s e) = []
  /\ isRecordingRef s' = false
  /\ baseTranscript s' = baseTranscript s
  /\ interimTranscript s' = interimTranscript s
  /\ transcript s' = transcript s
  /\ restartTimeout s' = restartTimeout s
  /\ (isRecording s' = true -> isRecording s = true)
  /\ (recognitionRef s' = true -> recognitionRef s = true).
Proof.
  intros He Hrec. cbv zeta. unfold step. cbn [fst snd].
  assert (R : react s e = s
              \/ react s e = stopRecording s
              \/ exists n, react s e = setEndRestarts n s).
  { destruct e as [rs | err | | b | b | b | | v]; try discriminate;
      cbn [react].
    - left. unfold onresult. now rewrite Hrec.
    - destruct err; auto.
    - left. unfold onend. now rewrite Hrec.
    - destruct (endRestarts s) as [|n]; [now left|].
      right. right. exists n. unfold restart_callback. cbn. now rewrite Hrec. }
  destruct e as [rs | err | | b | b | b | | v]; try discriminate;
    cbn [direct_calls app];
    destruct R as [-> | [-> | [n ->]]];
    rewrite settle_quiet by reflexivity; cbn; auto 10; repeat split; auto;
    discriminate.
Qed.

(** X12.  A stop is honoured: once the should-be-listening flag is clear,
    no event of the engine (results, errors, the end of a session, the
    restart timer of [onend]) sets it again, starts recognition, changes the
    text or tells the parent anything, however many arrive. *)
Theorem stop_is_honoured (evs : list Event) :
  forall s,
    forallb engine_event evs = true -> isRecordingRef s = false ->
    let s' := run s evs in
    told s evs = []
    /\ isRecordingRef s' = false
    /\ baseTranscript s' = baseTranscript s
    /\ interimTranscript s' = interimTranscript s
    /\ transcript s' = transcript s
    /\ (isRecording s' = true -> isRecording s = true)
    /\ (recognitionRef s' = true -> recognitionRef s = true).
Proof.
  induction evs as [|e evs IH]; intros s He Hrec; [cbn; auto 10|].
  cbn [forallb] in He. apply andb_prop in He as [He1 He2].
  destruct (engine_step_quiet s e He1 Hrec)
    as (Q1 & Q2 & Q3 & Q4 & Q5 & _ & Q7 & Q8).
  destruct (IH _ He2 Q2) as (I1 & I2 & I3 & I4 & I5 & I6 & I7).
  unfold run in *. cbn [fold_left told]. cbv zeta.
  rewrite Q1, I1, I2, I3, I4, I5, Q3, Q4, Q5. auto 10.
Qed.

Lemma stop_is_honoured_witness :
  forallb engine_event
    [final_result (lit "late"); OnEnd; RestartDue true; OnError NoSpeech]
  = true
  /\ isRecordingRef stopped = false
  /\ baseTranscript
       (run stopped
          [final_result (lit "late"); OnEnd; RestartDue true; OnError NoSpeech])
     = baseTranscript stopped.
Proof.
  split; [reflexivity|]. split; [reflexivity|].
  exact (proj1 (proj2 (proj2
    (stop_is_honoured
       [final_result (lit "late"); OnEnd; RestartDue true; OnError NoSpeech]
       stopped eq_refl eq_refl)))).
Defined.

Lemma edit_while_recording (s : State) (v : str) :
  isRecording s = true ->
  let s' := fst (step s (Edit v)) in
  isRecording s' = true /\ restartTimeout s' = true /\ baseTranscript s' = v.
Proof.
  intros H. destruct (step_fields s (Edit v)) as (F1 & _ & _ & F4 & _ & F6 & _).
  cbv zeta. rewrite F1, F4, F6. cbn [react]. unfold handleManualEdit.
  rewrite H. now destruct (recognitionRef _).
Qed.

Lemma toggle_while_recording (s : State) (b : bool) :
  isRecording s = true ->
  let s' := fst (step s (ToggleClick b)) in
  isRecording s' = false /\ isRecordingRef s' = false
  /\ recognitionRef s' = false
  /\ restartTimeout s' = restartTimeout s
  /\ baseTranscript s' = baseTranscript s
  /\ sessionTranscript s' = [] /\ interimTranscript s' = [].
Proof.
  intros H.
  destruct (step_fields s (ToggleClick b))
    as (F1 & F2 & F3 & F4 & _ & F6 & F7 & F8).
  cbv zeta. rewrite F1, F2, F3, F4, F6, F7, F8. cbn [react].
  unfold toggleRecording. rewrite H. now repeat split.
Qed.

Lemma edit_restart_fires (s : State) :
  restartTimeout s = true ->
  let s' := fst (step s (EditRestartDue true)) in
  isRecordingRef s' = true /\ recognitionRef s' = true
  /\ isRecording s' = isRecording s
  /\ baseTranscript s' = baseTranscript s.
Proof.
  intros H.
  destruct (step_fields s (EditRestartDue true))
    as (F1 & F2 & F3 & _ & _ & F6 & _).
  cbv zeta. rewrite F1, F2, F3, F6. cbn [react]. rewrite H.
  now repeat split.
Qed.

(** X13.  A stop does not cancel the restart that a manual edit has
    scheduled.  Edit while recording, then stop within the 800 ms: when the
    timer fires, the flag is set and recognition is started again, while
    [isRecording] stays false; the next final result is baked into the
    edited text. *)
Theorem stop_leaves_edit_restart (s : State) (v c : str) (b : bool) :
  isRecording s = true ->
  let s' := run s [Edit v; ToggleClick b; EditRestartDue true] in
  isRecording s' = false
  /\ isRecordingRef s' = true
  /\ recognitionRef s' = true
  /\ baseTranscript s' = v
  /\ (c <> [] ->
      baseTranscript (fst (step s' (final_result c))) = bake (trim c) v).
Proof.
  intros H. unfold run. cbn [fold_left]. cbv zeta.
  destruct (edit_while_recording s v H) as (E1 & E2 & E3).
  destruct (toggle_while_recording _ b E1) as (T1 & _ & _ & T4 & T5 & _).
  rewrite E2 in T4. destruct (edit_restart_fires _ T4) as (R1 & R2 & R3 & R4).
  rewrite R1, R2, R3, R4, T1, T5, E3. repeat split.
  intros Hc. destruct (onresult_final c _ R1) as (_ & _ & ->).
  rewrite R4, T5, E3. apply RecorderProps.truthy_true in Hc. now rewrite Hc.
Qed.

Lemma stop_leaves_edit_restart_witness :
  isRecording listening = true
  /\ isRecordingRef
       (run listening
          [Edit (lit "a fox"); ToggleClick true; EditRestartDue true])
     = true.
Proof.
  split; [reflexivity|].
  exact (proj1 (proj2
    (stop_leaves_edit_restart listening (lit "a fox") [] true eq_refl))).
Defined.

(** X14.  Stopping by the toggle drops what is not final: [interim] and
    [session] become empty, [base] stays, the text in the box is [base],
    and the parent is told [base] exactly when that changes the text. *)
Theorem toggle_stop_discards_interim (s : State) (b : bool) :
  isRecording s = true -> transcript s = fullText s ->
  let r := step s (ToggleClick b) in
  isRecording (fst r) = false
  /\ isRecordingRef (fst r) = false
  /\ baseTranscript (fst r) = baseTranscript s
  /\ interimTranscript (fst r) = []
  /\ sessionTranscript (fst r) = []
  /\ transcript (fst r) = baseTranscript s
  /\ snd r = (if str_eqb (baseTranscript s) (transcript s)
              then [] else [baseTranscript s]).
Proof.
  intros H Hs r.
  destruct (toggle_while_recording s b H) as (T1 & T2 & _ & _ & T5 & T6 & T7).
  fold r in T1, T2, T5, T6, T7.
  assert (Hsynced : synced (fst r))
    by (unfold r, step; cbn [fst]; now apply RecorderProps.settle_synced).
  assert (Ht : transcript (fst r) = baseTranscript s).
  { rewrite Hsynced. unfold fullText. rewrite T5, T6, T7. apply app_nil_r. }
  repeat split; auto.
  assert (Rq : react s (ToggleClick b)
               = setInterimTranscript []
                   (setSessionTranscript [] (stopRecording s)))
    by (cbn [react]; unfold toggleRecording; now rewrite H).
  assert (Fq : fullText (react s (ToggleClick b)) = baseTranscript s)
    by (rewrite Rq; unfold fullText; cbn; apply app_nil_r).
  assert (Tq : transcript (react s (ToggleClick b)) = transcript s)
    by (rewrite Rq; reflexivity).
  pose proof (RecorderProps.settle_latest s (react s (ToggleClick b))) as L.
  unfold r, step in Ht. cbn [fst] in Ht. rewrite Ht, Tq in L.
  unfold r, step. cbn [snd direct_calls app].
  destruct (RecorderProps.settle_notifies s (react s (ToggleClick b)))
    as [E | [E Hne]]; rewrite E in *.
  - cbn in L. rewrite L, str_eqb_refl. reflexivity.
  - rewrite Fq, Tq in *. apply str_eqb_neq in Hne. now rewrite Hne.
Qed.

Lemma toggle_stop_discards_interim_witness :
  isRecording heard_interim = true
  /\ transcript heard_interim = fullText heard_interim
  /\ transcript (fst (step heard_interim (ToggleClick true))) = lit "once".
Proof.
  split; [reflexivity|]. split; [reflexivity|].
  exact (proj1 (proj2 (proj2 (proj2 (proj2 (proj2
    (toggle_stop_discards_interim heard_interim true eq_refl eq_refl))))))).
Defined.

(** A manual edit tells the parent nothing. *)
Lemma edit_tells_nothing (s : State) (v : str) : snd (step s (Edit v)) = [].
Proof.
  unfold step. cbn [snd direct_calls app react].
  destruct (RecorderProps.settle_notifies s (handleManualEdit v s))
    as [E | [_ Hne]]; [exact E|].
  exfalso. apply Hne. unfold handleManualEdit, fullText.
  destruct (isRecording s); [destruct (recognitionRef _)|]; cbn;
    apply app_nil_r.
Qed.

End Stopping.

Section Denial.

(** X15.  A permission error stops the listening but leaves the interim
    text; starting again takes the whole text of the box as [base] while
    that interim text is still there, so it appears twice. *)
Theorem restart_after_denial_doubles_interim (s : State) (b : bool) :
  transcript s = fullText s -> sessionTranscript s = [] ->
  let s' := run s [OnError NotAllowed; ToggleClick b] in
  baseTranscript s' = baseTranscript s ++ interimTranscript s
  /\ interimTranscript s' = interimTranscript s
  /\ transcript s'
     = baseTranscript s ++ interimTranscript s ++ interimTranscript s.
Proof.
  intros Hsync Hses. unfold run. cbn [fold_left]. cbv zeta.
  assert (E1 : fst (step s (OnError NotAllowed)) = stopRecording s).
  { unfold step. cbn [fst react onerror]. now rewrite settle_quiet. }
  rewrite E1. set (s1 := stopRecording s).
  assert (R : baseTranscript (react s1 (ToggleClick b)) = transcript s
              /\ interimTranscript (react s1 (ToggleClick b))
                 = interimTranscript s
              /\ sessionTranscript (react s1 (ToggleClick b)) = []).
  { unfold s1. cbn [react]. unfold toggleRecording, startRecording.
    cbn [isRecording stopRecording setIsRecording setIsRecordingRef
         setRecognitionRef setBaseTranscript isRecordingRef negb].
    destruct b; cbn; auto. }
  destruct R as (R1 & R2 & R3).
  destruct (step_fields s1 (ToggleClick b))
    as (_ & _ & _ & _ & _ & F6 & F7 & F8).
  assert (Hsy2 : synced (fst (step s1 (ToggleClick b))))
    by (unfold step; cbn [fst]; now apply RecorderProps.settle_synced).
  unfold synced, fullText in Hsy2. rewrite F6, F7, F8, R1, R2, R3 in *.
  rewrite Hsy2, Hsync. unfold fullText. rewrite Hses. cbn [app].
  repeat split. now rewrite <- app_assoc.
Qed.

Lemma restart_after_denial_doubles_interim_witness :
  transcript heard_interim = fullText heard_interim
  /\ sessionTranscript heard_interim = []
  /\ transcript (run heard_interim [OnError NotAllowed; ToggleClick true])
     = lit "onceupup".
Proof.
  split; [reflexivity|]. split; [reflexivity|].
  exact (proj2 (proj2
    (restart_after_denial_doubles_interim heard_interim true
       eq_refl eq_refl))).
Defined.

End Denial.

End RecorderMore.

(** ** URI encoding and the illustration endpoint *)

Module ApiProps.
Import Uri Api.

Ltac to_arith H :=
  unfold allowed, is_ws, plain, ascii, uri_safe, uri_unreserved,
    high_surrogate, low_surrogate, in_range in H;
  rewrite ?orb_true_iff, ?andb_true_iff, ?negb_true_iff, ?orb_false_iff,
    ?andb_false_iff, ?N.eqb_eq, ?N.leb_le, ?N.ltb_lt, ?N.eqb_neq,
    ?N.leb_gt, ?N.ltb_ge in H.

Section Encoding.

Lemma hex_digit_unreserved (n : N) :
  (n < 16)%N -> uri_unreserved (hex_digit n) = true.
Proof.
  intros H. unfold hex_digit, uri_unreserved.
  destruct (N.ltb_spec n 10) as [L|L].
  - assert (D : in_range 48 57 (48 + n) = true).
    { unfold in_range. apply andb_true_intro.
      split; apply N.leb_le; lia. }
    rewrite D, orb_true_r. reflexivity.
  - assert (U : in_range 65 90 (55 + n) = true).
    { unfold in_range. apply andb_true_intro.
      split; apply N.leb_le; lia. }
    rewrite U. reflexivity.
Qed.

Lemma pct_safe (b : N) : (b < 256)%N -> forallb uri_safe (pct b) = true.
Proof.
  intros H. unfold pct. cbn [forallb]. unfold uri_safe at 2 3.
  rewrite !hex_digit_unreserved; [reflexivity| |].
  - apply N.mod_lt. lia.
  - apply N.Div0.div_lt_upper_bound. lia.
Qed.

Lemma utf8_octets (cp : N) :
  (cp < 1114112)%N -> Forall (fun b => (b < 256)%N) (utf8 cp).
Proof.
  intros H. unfold utf8.
  assert (M : forall a, (a mod 64 < 64)%N) by (intros a; apply N.mod_lt; lia).
  destruct (N.ltb_spec cp 128); [repeat constructor; lia|].
  destruct (N.ltb_spec cp 2048).
  { assert (cp / 64 < 32)%N by (apply N.Div0.div_lt_upper_bound; lia).
    pose proof (M cp). repeat constructor; lia. }
  destruct (N.ltb_spec cp 65536).
  { assert (cp / 4096 < 16)%N by (apply N.Div0.div_lt_upper_bound; lia).
    pose proof (M cp). pose proof (M (cp / 64)%N). repeat constructor; lia. }
  assert (cp / 262144 < 5)%N by (apply N.Div0.div_lt_upper_bound; lia).
  pose proof (M cp). pose proof (M (cp / 64)%N). pose proof (M (cp / 4096)%N).
  repeat constructor; lia.
Qed.

Lemma escape_safe (cp : N) :
  (cp < 1114112)%N -> forallb uri_safe (escape cp) = true.
Proof.
  intros H. unfold escape. pose proof (utf8_octets cp H) as F.
  induction F as [|b l Hb F IH]; cbn [map List.concat]; [reflexivity|].
  rewrite forallb_app, pct_safe, IH by exact Hb. reflexivity.
Qed.

(** On a text without surrogates the encoding raises nothing, and what it
    yields is made of unreserved characters and escapes. *)
Lemma encode_plain (s : str) :
  forallb plain s = true ->
  exists e, encodeURIComponent s = Some e /\ forallb uri_safe e = true.
Proof.
  induction s as [|c r IH]; cbn [forallb encodeURIComponent]; [eauto|].
  intros H. apply andb_prop in H as [Hc Hr].
  destruct (IH Hr) as (e & He & Hs). rewrite He. cbn [option_map].
  destruct (uri_unreserved c) eqn:Hu.
  - eexists. split; [reflexivity|]. cbn [forallb]. unfold uri_safe at 1.
    now rewrite Hu, Hs.
  - unfold plain in Hc. apply andb_prop in Hc as [Hc Hl].
    apply andb_prop in Hc as [Hb Hh].
    apply negb_true_iff in Hl, Hh. apply N.ltb_lt in Hb. rewrite Hl, Hh.
    eexists. split; [reflexivity|].
    rewrite forallb_app, escape_safe, Hs by lia. reflexivity.
Qed.

Lemma ascii_plain (c : N) : ascii c = true -> plain c = true.
Proof.
  intros H. to_arith H. unfold plain, high_surrogate, low_surrogate, in_range.
  rewrite (proj2 (N.ltb_lt c 65536)) by lia. cbn [andb].
  destruct (N.leb_spec 55296 c); destruct (N.leb_spec 56320 c);
    cbn; try reflexivity; lia.
Qed.

Lemma uri_safe_ascii (c : N) : uri_safe c = true -> ascii c = true.
Proof. intros H. to_arith H. unfold ascii. apply N.ltb_lt. lia. Qed.

Lemma allowed_plain (c : N) : allowed c = true -> plain c = true.
Proof.
  intros H. to_arith H. unfold plain, high_surrogate, low_surrogate, in_range.
  rewrite (proj2 (N.ltb_lt c 65536)) by lia. cbn [andb].
  destruct (N.leb_spec 55296 c); destruct (N.leb_spec c 56319);
    destruct (N.leb_spec 56320 c); destruct (N.leb_spec c 57343);
    cbn; try reflexivity; lia.
Qed.

Lemma forallb_impl (P Q : N -> bool) (s : str) :
  (forall c, P c = true -> Q c = true) ->
  forallb P s = true -> forallb Q s = true.
Proof.
  intros HPQ. induction s as [|c r IH]; cbn; [reflexivity|].
  intros H. apply andb_prop in H as [Hc Hr]. now rewrite HPQ, IH.
Qed.

Lemma safeText_allowed (text : str) : forallb allowed (safeText text) = true.
Proof.
  unfold safeText. induction text as [|c r IH]; cbn; [reflexivity|].
  destruct (allowed c) eqn:E; cbn; [now rewrite E|exact IH].
Qed.

Lemma digits_ascii (d : Decimal.uint) :
  forallb ascii (lit (NilEmpty.string_of_uint d)) = true.
Proof. induction d; cbn; auto. Qed.

Lemma decimal_ascii (n : N) : forallb ascii (decimal n) = true.
Proof.
  unfold decimal, NilZero.string_of_uint.
  destruct (N.to_uint n); try apply digits_ascii. reflexivity.
Qed.

End Encoding.

Section Endpoint.

Lemma prompt_encodes (text : str) :
  exists enc,
    encodeURIComponent (safeText text ++ lit " kids story art") = Some enc
    /\ forallb uri_safe enc = true.
Proof.
  apply encode_plain. rewrite forallb_app.
  rewrite (forallb_impl allowed plain _ allowed_plain (safeText_allowed text)).
  reflexivity.
Qed.

(** The handler either refuses, or it was a POST with a text of five code
    units or more and it answers with an image. *)
Lemma handler_cases (req : Request) (seed : N) :
  (success (json (handler req seed)) = false
   /\ image (json (handler req seed)) = None
   /\ narrative (json (handler req seed)) = None
   /\ (status (handler req seed) = 200%N \/ status (handler req seed) = 405%N)
   /\ ~ (method req = lit "POST"
         /\ exists text, body_text req = Some text /\ 5 <= len text))
  \/ (exists text enc,
        method req = lit "POST" /\ body_text req = Some text /\ 5 <= len text
        /\ forallb uri_safe enc = true
        /\ handler req seed
           = mkReply 200 (mkData true (Some (imageUrl enc seed)) (Some text)
                                 true None)).
Proof.
  unfold handler.
  destruct (str_eqb (method req) (lit "POST")) eqn:Hm; cbn [negb].
  2:{ left. apply str_eqb_neq in Hm. cbn. repeat split; auto. tauto. }
  apply str_eqb_eq in Hm.
  destruct (body_text req) as [text|] eqn:Hb.
  2:{ left. cbn. repeat split; auto. intros (_ & t & [=] & _). }
  destruct (negb (truthy text) || (len text <? 5)) eqn:Hs.
  { left. cbn. repeat split; auto. intros (_ & t & [= <-] & Hl).
    apply orb_prop in Hs as [Hs | Hs].
    - destruct text; [cbn in Hl; lia|discriminate].
    - apply Nat.ltb_lt in Hs. lia. }
  apply orb_false_elim in Hs as [_ Hs]. apply Nat.ltb_ge in Hs.
  destruct (prompt_encodes text) as (enc & -> & Hsafe).
  right. exists text, enc. auto.
Qed.

(** X17.  The endpoint never answers 500 for a text: what the sanitising
    leaves has no surrogate that [encodeURIComponent] could choke on.  It
    answers with success exactly for a POST whose text has five code units
    or more; the narrative of the answer is the text as it came, not the
    sanitised one, and the prompt in the image address is made of
    unreserved characters and escapes only.  A refusal carries neither
    image nor narrative. *)
Theorem endpoint_contract (req : Request) (seed : N) :
  let r := handler req seed in
  status r <> 500%N
  /\ (success (json r) = true
      <-> method req = lit "POST"
          /\ exists text, body_text req = Some text /\ 5 <= len text)
  /\ (success (json r) = true ->
      status r = 200%N /\ narrative (json r) = body_text req
      /\ exists enc, image (json r) = Some (imageUrl enc seed)
                     /\ forallb uri_safe enc = true)
  /\ (success (json r) = false ->
      image (json r) = None /\ narrative (json r) = None).
Proof.
  cbv zeta.
  destruct (handler_cases req seed)
    as [(H1 & H2 & H3 & H4 & H5) | (text & enc & Hm & Hb & Hl & Hs & ->)].
  - rewrite H1, H2, H3. split; [destruct H4 as [-> | ->]; discriminate|].
    split; [split; [discriminate|tauto]|]. split; [discriminate|auto].
  - cbn. split; [discriminate|]. split; [split; eauto|].
    split; [|discriminate]. intros _. rewrite Hb. eauto.
Qed.

Lemma endpoint_contract_witness :
  success (json (handler (request_for (lit "a fox!")) 42)) = true
  /\ narrative (json (handler (request_for (lit "a fox!")) 42))
     = Some (lit "a fox!").
Proof.
  assert (H : success (json (handler (request_for (lit "a fox!")) 42)) = true)
    by (vm_compute; reflexivity).
  split; [exact H|].
  exact (proj1 (proj2 (proj1 (proj2 (proj2
    (endpoint_contract (request_for (lit "a fox!")) 42))) H))).
Defined.

Lemma imageUrl_ascii (enc : str) (seed : N) :
  forallb uri_safe enc = true -> forallb ascii (imageUrl enc seed) = true.
Proof.
  intros H. unfold imageUrl. rewrite !forallb_app, decimal_ascii.
  rewrite (forallb_impl uri_safe ascii _ uri_safe_ascii H). reflexivity.
Qed.

(** X18.  The image address of an answer can always be handed to the
    relay: the [encodeURIComponent] with which the page, the display and
    the exporter build the relay address raises nothing on it. *)
Theorem image_can_be_relayed (req : Request) (seed : N) (url : str) :
  image (json (handler req seed)) = Some url ->
  exists address, Proxy.proxied url = Some address.
Proof.
  intros H.
  destruct (handler_cases req seed)
    as [(_ & H2 & _) | (text & enc & _ & _ & _ & Hs & E)].
  - rewrite H2 in H. discriminate.
  - rewrite E in H. cbn [image json] in H. injection H as <-.
    destruct (encode_plain (imageUrl enc seed)) as (e & He & _).
    { apply (forallb_impl ascii plain _ ascii_plain).
      now apply imageUrl_ascii. }
    unfold Proxy.proxied. rewrite He. cbn. eauto.
Qed.

Lemma image_can_be_relayed_witness :
  exists url address,
    image (json (handler (request_for (lit "a fox!")) 42)) = Some url
    /\ Proxy.proxied url = Some address.
Proof.
  eexists. 
  assert (H : image (json (handler (request_for (lit "a fox!")) 42))
              = Some (imageUrl (lit "a%20fox!%20kids%20story%20art") 42))
    by (vm_compute; reflexivity).
  destruct (image_can_be_relayed _ _ _ H) as [address Ha].
  exists address. split; [exact H|exact Ha].
Defined.

Lemma accepted (text : str) (seed : N) :
  5 <= len text ->
  Home.succeeded (outcome_of (handler (request_for text) seed)) = true
  /\ exists enc,
       outcome_of (handler (request_for text) seed)
       = Home.Response true
           (Home.Json (Home.mkData true (Some (imageUrl enc seed)) (Some text))).
Proof.
  intros Hl.
  destruct (handler_cases (request_for text) seed)
    as [(_ & _ & _ & _ & H5) | (t & enc & _ & Hb & _ & _ & ->)].
  - exfalso. apply H5. split; [reflexivity|]. eauto.
  - cbn in Hb. injection Hb as <-. split; [reflexivity|]. eauto.
Qed.

Lemma refused (text : str) (seed : N) :
  len text < 5 ->
  Home.succeeded (outcome_of (handler (request_for text) seed)) = false.
Proof.
  intros Hl.
  destruct (handler_cases (request_for text) seed)
    as [(H1 & H2 & _) | (t & enc & _ & Hb & Ht & _)].
  - unfold outcome_of, Home.succeeded. rewrite H1.
    now destruct (in_range _ _ _).
  - cbn in Hb. injection Hb as <-. lia.
Qed.

(** X19.  The endpoint refuses no text that an automatic trigger sends: the
    pause trigger needs more than ten code units pending and the
    word-count trigger 25 words, so the round succeeds, and the scene gets
    the pending text as its narrative. *)
Theorem automatic_rounds_are_accepted (s : Home.State) (seed : N) :
  Home.pause_fires s = true \/ 25 <= wordCount (Home.pending s) ->
  let o := outcome_of (handler (request_for (Home.pending s)) seed) in
  Home.succeeded o = true
  /\ exists enc,
       o = Home.Response true
             (Home.Json (Home.mkData true (Some (imageUrl enc seed))
                                     (Some (Home.pending s)))).
Proof.
  intros H. apply accepted. destruct H as [H | H].
  - unfold Home.pause_fires in H.
    apply andb_prop in H as [H _]. apply andb_prop in H as [H _].
    apply Nat.ltb_lt in H. unfold Home.pending. rewrite len_slice. lia.
  - rewrite wordCount_count_tokens in H. unfold count_tokens in H.
    destruct (HomeMore.count_tokens_length (Home.pending s)) as [L _].
    unfold len. lia.
Qed.

Lemma automatic_rounds_are_accepted_witness :
  25 <= wordCount (Home.pending Home.fox_in_flight)
  /\ Home.succeeded
       (outcome_of (handler (request_for (Home.pending Home.fox_in_flight)) 7))
     = true.
Proof.
  assert (H : 25 <= wordCount (Home.pending Home.fox_in_flight))
    by (vm_compute; lia).
  split; [exact H|].
  exact (proj1 (automatic_rounds_are_accepted Home.fox_in_flight 7
                  (or_intror H))).
Defined.

(** X20.  The manual trigger can send what the endpoint refuses: a pending
    text of four code units passes the trigger's test (more than three) and
    fails the endpoint's (fewer than five).  The round fails; cursor,
    scenes and pending text are as before the click. *)
Theorem short_manual_round_fails (s : Home.State) (seed now : N) :
  Home.isProcessing s = false -> Home.processingRef s = false ->
  Home.inflight s = [] ->
  3 < len (trim (Home.pending s)) -> len (Home.pending s) < 5 ->
  let s1 := Home.step s Home.GenerateClick in
  let o := outcome_of (handler (request_for (Home.pending s)) seed) in
  let s2 := Home.step s1 (Home.FetchSettled 0 o now) in
  Home.inflight s1
  = [Home.mkPending (Home.pending s) (len (Home.pending s))]
  /\ Home.succeeded o = false
  /\ Home.scenes s2 = Home.scenes s
  /\ Home.lastProcessedLength s2 = Home.lastProcessedLength s
  /\ Home.pending s2 = Home.pending s
  /\ Home.inflight s2 = [].
Proof.
  intros Hi Hp Hidle Htrim Hlen s1 o s2.
  assert (E1 : s1 = Home.setInflight
                      [Home.mkPending (Home.pending s) (len (Home.pending s))]
                      (Home.setIsProcessing true (Home.setProcessingRef true s))).
  { unfold s1. cbn [Home.step]. rewrite Hi. cbn [orb].
    rewrite (HomeMore.nonempty_len _ (HomeMore.long_trim_nonempty _ _ Htrim)).
    unfold Home.onClick_generate. fold (Home.pending s).
    rewrite (proj2 (Nat.ltb_lt _ _) Htrim).
    rewrite HomeProps.dispatch_fires
      by (auto using HomeMore.long_trim_truthy).
    rewrite Hidle. now apply HomeProps.settle_same. }
  assert (Ho : Home.succeeded o = false) by now apply refused.
  assert (E2 : s2 = Home.setIsProcessing false
                      (Home.setProcessingRef false (Home.setInflight [] s1))).
  { unfold s2.
    rewrite (HomeProps.failure_step s1 0
               (Home.mkPending (Home.pending s) (len (Home.pending s))) o now);
      rewrite ?E1; auto. }
  split; [now rewrite E1|]. split; [exact Ho|].
  rewrite E2, E1. repeat split.
Qed.

Lemma short_manual_round_fails_witness :
  Home.isProcessing Home.typed_abcd = false
  /\ Home.processingRef Home.typed_abcd = false
  /\ Home.inflight Home.typed_abcd = []
  /\ 3 < len (trim (Home.pending Home.typed_abcd))
  /\ len (Home.pending Home.typed_abcd) < 5
  /\ Home.succeeded
       (outcome_of (handler (request_for (Home.pending Home.typed_abcd)) 3))
     = false.
Proof.
  assert (H4 : 3 < len (trim (Home.pending Home.typed_abcd)))
    by (vm_compute; lia).
  assert (H5 : len (Home.pending Home.typed_abcd) < 5) by (vm_compute; lia).
  split; [reflexivity|]. split; [reflexivity|]. split; [reflexivity|].
  split; [exact H4|]. split; [exact H5|].
  exact (proj1 (proj2
    (short_manual_round_fails Home.typed_abcd 3 9 eq_refl eq_refl eq_refl
       H4 H5))).
Defined.

End Endpoint.

End ApiProps.

(** ** The image relay *)

Module ProxyProps.
Import Proxy.

Lemma relay_cases (url : QueryValue) (upstream : str -> Upstream) :
  (exists u ct b,
      url = One u /\ u <> [] /\ upstream u = Answered true ct (Some b)
      /\ handler url upstream
         = mkReply 200
             ((if Home.truthy_opt ct
               then [(lit "Content-Type", default [] ct)] else [])
              ++ [(lit "Cross-Origin-Resource-Policy", lit "cross-origin");
                  (lit "Cache-Control",
                   lit "public, max-age=31536000, immutable")])
             (Bytes b))
  \/ ((forall u, url = One u -> u = [])
      /\ handler url upstream
         = mkReply 400 [] (Text (lit "Missing url param")))
  \/ (exists u,
        url = One u /\ u <> []
        /\ (forall ct b, upstream u <> Answered true ct (Some b))
        /\ handler url upstream
           = mkReply 500 [] (Text (lit "Error fetching image"))).
Proof.
  unfold handler. destruct url as [|u|vs].
  - right. left. split; [intros u [=]|reflexivity].
  - destruct u as [|c u'].
    + right. left. split; [intros u [= <-]; reflexivity|reflexivity].
    + cbn [truthy].
      destruct (upstream (c :: u')) as [|[] ct [b|]] eqn:Hu;
        try (right; right; exists (c :: u');
             split; [reflexivity|]; split; [discriminate|];
             split; [intros ct0 b0; rewrite Hu; discriminate|reflexivity]).
      left. exists (c :: u'), ct, b. split; [reflexivity|].
      split; [discriminate|]. split; [exact Hu|reflexivity].
  - right. left. split; [intros u [=]|reflexivity].
Qed.

(** X21.  The relay answers 200 exactly when it was given one non-empty
    [url] and the upstream answered ok with a readable body; it then passes
    the upstream bytes on unchanged, with the cross-origin resource policy
    and the caching header set, after the upstream content type when there
    is one.  Every other answer has no header and no upstream byte: 400
    exactly when there is no usable [url] (missing, empty, or given more
    than once), 500 otherwise. *)
Theorem relay_contract (url : QueryValue) (upstream : str -> Upstream) :
  let r := handler url upstream in
  (status r = 200%N
   <-> exists u ct b, url = One u /\ u <> []
                      /\ upstream u = Answered true ct (Some b))
  /\ (forall u ct b,
        url = One u -> upstream u = Answered true ct (Some b) ->
        status r = 200%N ->
        payload r = Bytes b
        /\ headers r
           = (if Home.truthy_opt ct
              then [(lit "Content-Type", default [] ct)] else [])
             ++ [(lit "Cross-Origin-Resource-Policy", lit "cross-origin");
                 (lit "Cache-Control",
                  lit "public, max-age=31536000, immutable")])
  /\ (status r = 400%N <-> forall u, url = One u -> u = [])
  /\ (status r <> 200%N ->
      headers r = []
      /\ (status r = 400%N /\ payload r = Text (lit "Missing url param")
          \/ status r = 500%N /\ payload r = Text (lit "Error fetching image"))).
Proof.
  cbv zeta.
  destruct (relay_cases url upstream)
    as [(u & ct & b & Hu & Hne & Hup & ->)
       | [(Hno & ->) | (u & Hu & Hne & Hup & ->)]];
    cbn [status headers payload].
  - split; [split; [intros _; exists u, ct, b; auto | reflexivity]|]. split.
    { intros u0 ct0 b0 E0 H0 _. rewrite Hu in E0. injection E0 as <-.
      rewrite Hup in H0. injection H0 as <- <-. auto. }
    split; [split; [discriminate|]|intros H; contradiction].
    intros H. specialize (H u Hu). contradiction.
  - split; [split; [discriminate|]|].
    { intros (u & ct & b & Hu & Hne & _). specialize (Hno u Hu).
      contradiction. }
    split; [intros u ct b _ _ [=]|]. split; [tauto|auto].
  - split; [split; [discriminate|]|].
    { intros (u0 & ct & b & E0 & _ & H0). rewrite Hu in E0.
      injection E0 as <-. now apply Hup in H0. }
    split; [intros u0 ct b _ _ [=]|].
    split; [split; [discriminate|]|auto].
    intros H. specialize (H u Hu). contradiction.
Qed.

Lemma relay_contract_witness :
  One (lit "https://img/1") = One (lit "https://img/1")
  /\ png_upstream (lit "https://img/1")
     = Answered true (Some (lit "image/png")) (Some [137; 80; 78; 71]%N)
  /\ status (handler (One (lit "https://img/1")) png_upstream) = 200%N
  /\ payload (handler (One (lit "https://img/1")) png_upstream)
     = Bytes [137; 80; 78; 71]%N.
Proof.
  split; [reflexivity|]. split; [reflexivity|]. split; [reflexivity|].
  exact (proj1 (proj1 (proj2
    (relay_contract (One (lit "https://img/1")) png_upstream))
      (lit "https://img/1") (Some (lit "image/png")) [137; 80; 78; 71]%N
      eq_refl eq_refl eq_refl)).
Defined.

End ProxyProps.

(** ** The movie maker *)

Module ExporterProps.
Import Exporter.

Section Wrapping.

Variable too_wide : str -> bool.

Lemma split_space_join (s : str) :
  forall cur, spaced (split_space_go cur s) = cur ++ s ++ lit " ".
Proof.
  unfold spaced.
  induction s as [|c r IH]; intros cur; cbn [split_space_go].
  - cbn. now rewrite app_nil_r.
  - destruct (N.eqb_spec c 32) as [-> | Hc].
    + cbn [map List.concat]. rewrite IH. cbn. now rewrite <- app_assoc.
    + rewrite IH. now rewrite <- app_assoc.
Qed.

Lemma wrap_loop_concat (words : list str) :
  forall n line lines,
    List.concat (wrap_loop too_wide n line lines words)
    = List.concat lines ++ line ++ spaced words.
Proof.
  unfold spaced.
  induction words as [|w r IH]; intros n line lines; cbn [wrap_loop].
  - rewrite concat_app. cbn. now rewrite !app_nil_r.
  - destruct (too_wide _ && _); rewrite IH; cbn [map List.concat].
    + rewrite concat_app. cbn. rewrite app_nil_r, <- !app_assoc. reflexivity.
    + rewrite <- !app_assoc. reflexivity.
Qed.

(** X22.  Wrapping loses nothing: the lines of a caption, put end to end,
    are the caption followed by one space, whatever the font measures. *)
Theorem wrap_conserves_text (text : str) :
  List.concat (wrapText too_wide text) = text ++ lit " ".
Proof.
  unfold wrapText. rewrite wrap_loop_concat. cbn [List.concat app].
  apply (split_space_join text []).
Qed.

Lemma split_space_go_cons (s : str) :
  forall cur, exists w r, split_space_go cur s = w :: r.
Proof.
  induction s as [|c r IH]; intros cur; cbn; [eauto|].
  destruct (c =? 32)%N; eauto.
Qed.

Lemma wrap_loop_lines (all : list str) (words : list str) :
  forall n line lines,
    0 < n ->
    (forall w, In w words -> In w all) ->
    Forall (fun l => l <> []
                     /\ (too_wide l = false
                         \/ exists w, In w all /\ l = w ++ lit " "))
           (lines ++ [line]) ->
    Forall (fun l => l <> []
                     /\ (too_wide l = false
                         \/ exists w, In w all /\ l = w ++ lit " "))
           (wrap_loop too_wide n line lines words)
    /\ length lines + 1 <= length (wrap_loop too_wide n line lines words)
       <= length lines + 1 + length words.
Proof.
  induction words as [|w r IH]; intros n line lines Hn Hall F; cbn [wrap_loop].
  - split; [exact F|]. rewrite length_app. cbn [length].
    unfold str in *. lia.
  - destruct n as [|n]; [lia|]. cbn [Nat.ltb Nat.leb]. rewrite andb_true_r.
    assert (Hw : In w all) by (apply Hall; now left).
    assert (Hr : forall w0, In w0 r -> In w0 all)
      by (intros w0 H0; apply Hall; now right).
    destruct (too_wide (line ++ w ++ lit " ")) eqn:Ht.
    + destruct (IH (S (S n)) (w ++ lit " ") (lines ++ [line])) as [I1 I2];
        [lia|exact Hr| |].
      * apply Forall_app. split; [exact F|]. constructor; [|constructor].
        split; [now destruct w|]. right. eauto.
      * split; [exact I1|]. rewrite length_app in I2.
        cbn [length] in *. unfold str in *. lia.
    + destruct (IH (S (S n)) (line ++ w ++ lit " ") lines) as [I1 I2];
        [lia|exact Hr| |].
      * apply Forall_app in F as [F1 F2]. apply Forall_app.
        split; [exact F1|]. constructor; [|constructor].
        split; [now destruct line, w|]. now left.
      * split; [exact I1|]. cbn [length] in *. unfold str in *. lia.
Qed.

(** X23.  The wrapping gives at least one line and no more lines than the
    caption has words (the pieces between single spaces); no line is
    empty; and every line either fits the width or is one word by itself,
    which could not be broken. *)
Theorem wrap_lines_fit (text : str) :
  let lines := wrapText too_wide text in
  1 <= length lines <= length (split_space text)
  /\ forall l, In l lines ->
       l <> []
       /\ (too_wide l = false
           \/ exists w, In w (split_space text) /\ l = w ++ lit " ").
Proof.
  cbv zeta. unfold wrapText.
  destruct (split_space_go_cons text []) as (w & r & E).
  unfold split_space in *. rewrite E. cbn [wrap_loop Nat.ltb Nat.leb].
  rewrite andb_false_r. cbn [app].
  destruct (wrap_loop_lines (w :: r) r 1 (w ++ lit " ") []) as [F L].
  - lia.
  - intros w0 H0. now right.
  - constructor; [|constructor]. split; [now destruct w|].
    right. exists w. split; [now left|reflexivity].
  - split; [cbn [length] in *; unfold str in *; lia|].
    rewrite List.Forall_forall in F. exact F.
Qed.

End Wrapping.

Lemma wrap_lines_fit_witness :
  In (lit "time ") (wrapText narrow (lit "once upon a time"))
  /\ lit "time " <> []
  /\ narrow (lit "time ") = false.
Proof.
  assert (H : In (lit "time ") (wrapText narrow (lit "once upon a time")))
    by (vm_compute; auto).
  split; [exact H|].
  split; [exact (proj1 (proj2 (wrap_lines_fit narrow (lit "once upon a time"))
                          _ H))|reflexivity].
Defined.

Section Frames.

Lemma lit_inj (a : string) : forall b, lit a = lit b -> a = b.
Proof.
  unfold lit. induction a as [|x a IH]; intros [|y b]; cbn;
    try discriminate; [reflexivity|].
  intros H. injection H as H1 H2.
  apply (f_equal ascii_of_N) in H1. rewrite !ascii_N_embedding in H1.
  f_equal; auto.
Qed.

Lemma to_uint_nonnil (n : N) : N.to_uint n <> Decimal.Nil.
Proof.
  destruct n; cbn; [discriminate|apply DecimalPos.Unsigned.to_uint_nonnil].
Qed.

Lemma decimal_inj (n m : N) : Uri.decimal n = Uri.decimal m -> n = m.
Proof.
  unfold Uri.decimal. intros H. apply lit_inj in H.
  apply (f_equal NilZero.uint_of_string) in H.
  rewrite !NilZero.usu in H by apply to_uint_nonnil.
  injection H as H. now apply DecimalN.Unsigned.to_uint_inj.
Qed.

(** No two frames share a file name. *)
Lemma frame_name_inj (i j : nat) : frame_name i = frame_name j -> i = j.
Proof.
  unfold frame_name. intros H. apply app_inv_head in H.
  apply app_inv_tail in H. apply decimal_inj in H. lia.
Qed.

Variable render : nat -> Home.Scene -> FrameOutcome.

Lemma write_frames_from (scenes : list Home.Scene) :
  forall k fs,
    (forall i sc, scenes !! i = Some sc ->
                  exists d, render (k + i) sc = ImageDrawn d true) ->
    let r := write_frames render k scenes fs in
    snd r = true
    /\ (forall i sc d, scenes !! i = Some sc ->
                       render (k + i) sc = ImageDrawn d true ->
                       fst r !! frame_name (k + i) = Some d)
    /\ (forall name,
          (forall i, i < length scenes -> name <> frame_name (k + i)) ->
          fst r !! name = fs !! name).
Proof.
  induction scenes as [|sc0 scenes IH]; intros k fs Hall; cbn [write_frames].
  - split; [reflexivity|]. split; [intros i sc d [=]|reflexivity].
  - destruct (Hall 0 sc0 eq_refl) as [d0 Hd0]. rewrite Nat.add_0_r in Hd0.
    rewrite Hd0.
    destruct (IH (S k) (<[frame_name k := d0]> fs)) as (I1 & I2 & I3).
    { intros i sc Hi. replace (S k + i) with (k + S i) by lia.
      now apply Hall. }
    cbv zeta. split; [exact I1|]. split.
    + intros [|i] sc d Hi Hd.
      * cbn in Hi. injection Hi as <-. rewrite Nat.add_0_r in *.
        rewrite Hd in Hd0. injection Hd0 as <-.
        rewrite I3; [apply lookup_insert_eq|].
        intros i _ E. apply frame_name_inj in E. lia.
      * replace (k + S i) with (S k + i) in * by lia. now apply (I2 i sc).
    + intros name Hname. rewrite I3.
      * apply lookup_insert_ne. intros E.
        apply (Hname 0); [cbn; lia|]. now rewrite Nat.add_0_r.
      * intros i Hi. replace (S k + i) with (k + S i) by lia.
        apply Hname. cbn. lia.
Qed.

(** The loop up to the first round that fails. *)
Lemma write_frames_take (scenes : list Home.Scene) :
  forall j k fs sc,
    scenes !! j = Some sc ->
    (forall i sc', i < j -> scenes !! i = Some sc' ->
                   exists d, render (k + i) sc' = ImageDrawn d true) ->
    (forall d, render (k + j) sc <> ImageDrawn d true) ->
    write_frames render k scenes fs
    = (fst (write_frames render k (take j scenes) fs), false).
Proof.
  induction scenes as [|sc0 scenes IH]; intros j k fs sc Hj Hbefore Hfail;
    [discriminate|].
  destruct j as [|j]; cbn [write_frames take].
  - cbn in Hj. injection Hj as <-. rewrite Nat.add_0_r in Hfail.
    destruct (render k sc0) as [|d []] eqn:E; try reflexivity.
    now destruct (Hfail d).
  - destruct (Hbefore 0 sc0 ltac:(lia) eq_refl) as [d0 Hd0].
    rewrite Nat.add_0_r in Hd0. rewrite Hd0.
    apply (IH j (S k) _ sc Hj).
    + intros i sc' Hi Hsc'. replace (S k + i) with (k + S i) by lia.
      apply Hbefore; [lia|exact Hsc'].
    + intros d. replace (S k + j) with (k + S j) by lia. apply Hfail.
Qed.

(** X24.  An export in which every image is drawn and every file written
    stores the frame of scene [i] under [input<i>.jpg], for every scene, in
    the order of the scene sequence; no two scenes share a name; every
    other file stays as it was, the frames of an earlier export with more
    scenes included: nothing is ever removed.  The movie is handed over
    once, without an alert, when the engine runs and its output can be
    read; otherwise there is one alert and no movie.  [isExporting] is
    clear at the end. *)
Theorem export_stores_frames (scenes : list Home.Scene) (exec_ok : bool)
    (output : option (list N)) (s : State) :
  loaded s = true ->
  (forall i sc, scenes !! i = Some sc ->
                exists d, render i sc = ImageDrawn d true) ->
  let s' := exportVideo render scenes exec_ok output s in
  isExporting s' = false
  /\ (forall i sc d, scenes !! i = Some sc -> render i sc = ImageDrawn d true ->
                     files s' !! frame_name i = Some d)
  /\ (forall i j, frame_name i = frame_name j -> i = j)
  /\ (forall name,
        (forall i, i < length scenes -> name <> frame_name i) ->
        files s' !! name = files s !! name)
  /\ (forall j, length scenes <= j ->
                files s' !! frame_name j = files s !! frame_name j)
  /\ match exec_ok, output with
     | true, Some data =>
         downloads s' = downloads s ++ [data] /\ alerts s' = alerts s
     | _, _ => downloads s' = downloads s /\ alerts s' = S (alerts s)
     end.
Proof.
  intros Hl Hall. cbv zeta. unfold exportVideo. rewrite Hl. cbn [negb].
  destruct (write_frames_from scenes 0 (files s) Hall) as (H1 & H2 & H3).
  cbn [Nat.add] in H2, H3. rewrite H1.
  assert (H4 : forall j, length scenes <= j ->
             fst (write_frames render 0 scenes (files s)) !! frame_name j
             = files s !! frame_name j).
  { intros j Hj. apply H3. intros i Hi E. apply frame_name_inj in E. lia. }
  destruct exec_ok, output as [data|];
    cbn [isExporting files downloads alerts];
    (split; [reflexivity|]); (split; [exact H2|]);
    (split; [exact frame_name_inj|]); (split; [exact H3|]);
    (split; [exact H4|]); split; reflexivity.
Qed.

(** X25.  An export stops at the first scene whose image cannot be drawn
    or written: there is one alert and no movie, [isExporting] is clear,
    the frames of the scenes before it are stored, and no frame from that
    index on is touched. *)
Theorem export_stops_at_failure (scenes : list Home.Scene) (j : nat)
    (sc : Home.Scene) (exec_ok : bool) (output : option (list N))
    (s : State) :
  loaded s = true -> scenes !! j = Some sc ->
  (forall i sc', i < j -> scenes !! i = Some sc' ->
                 exists d, render i sc' = ImageDrawn d true) ->
  (forall d, render j sc <> ImageDrawn d true) ->
  let s' := exportVideo render scenes exec_ok output s in
  isExporting s' = false
  /\ downloads s' = downloads s /\ alerts s' = S (alerts s)
  /\ (forall i sc' d, i < j -> scenes !! i = Some sc' ->
                      render i sc' = ImageDrawn d true ->
                      files s' !! frame_name i = Some d)
  /\ (forall k, j <= k -> files s' !! frame_name k = files s !! frame_name k).
Proof.
  intros Hl Hj Hbefore Hfail. cbv zeta. unfold exportVideo.
  rewrite Hl. cbn [negb].
  rewrite (write_frames_take scenes j 0 (files s) sc Hj Hbefore Hfail).
  cbn [fst snd isExporting downloads alerts files].
  pose proof (lookup_lt_Some _ _ _ Hj) as Hlen.
  destruct (write_frames_from (take j scenes) 0 (files s)) as (_ & H2 & H3).
  { intros i sc' Hi. apply lookup_take_Some in Hi as [Hi Hlt].
    now apply (Hbefore i). }
  cbn [Nat.add] in H2, H3. rewrite length_take_le in H3 by lia.
  repeat split.
  - intros i sc' d Hi Hsc' Hd. apply (H2 i sc'); [|exact Hd].
    apply lookup_take_Some. auto.
  - intros k Hk. apply H3. intros i Hi E. apply frame_name_inj in E. lia.
Qed.

End Frames.

Lemma export_stores_frames_witness :
  loaded (mkState true false ∅ [] 0) = true
  /\ (forall i sc, two_scenes !! i = Some sc ->
                   exists d, all_drawn i sc = ImageDrawn d true)
  /\ files (exportVideo all_drawn two_scenes true (Some (lit "movie"))
              (mkState true false ∅ [] 0))
     !! lit "input1.jpg"
     = Some (lit "img-b").
Proof.
  assert (H : forall i sc, two_scenes !! i = Some sc ->
                           exists d, all_drawn i sc = ImageDrawn d true)
    by (intros i sc _; unfold all_drawn; eauto).
  split; [reflexivity|]. split; [exact H|].
  exact (proj1 (proj2
    (export_stores_frames all_drawn two_scenes true (Some (lit "movie"))
       (mkState true false ∅ [] 0) eq_refl H))
           1 (Home.mkScene (lit "img-b") (Some (lit "danced")) 2)
           (lit "img-b") eq_refl eq_refl).
Defined.

Lemma export_stops_at_failure_witness :
  loaded (mkState true false ∅ [] 0) = true
  /\ two_scenes !! 1 = Some (Home.mkScene (lit "img-b") (Some (lit "danced")) 2)
  /\ alerts (exportVideo second_fails two_scenes true (Some (lit "movie"))
               (mkState true false ∅ [] 0))
     = 1.
Proof.
  split; [reflexivity|]. split; [reflexivity|].
  refine (proj1 (proj2 (proj2
    (export_stops_at_failure second_fails two_scenes 1
       (Home.mkScene (lit "img-b") (Some (lit "danced")) 2)
       true (Some (lit "movie")) (mkState true false ∅ [] 0)
       eq_refl eq_refl _ _)))).
  - intros i sc' Hi _. destruct i; [|lia]. unfold second_fails. cbn. eauto.
  - intros d. unfold second_fails. cbn. discriminate.
Defined.

End ExporterProps.

(** ** The live scene *)

Module DisplayProps.
Import Display.

Lemma currentScene_none (h : Home.State) :
  currentScene h = None <-> Home.scenes h = [].
Proof.
  unfold currentScene. destruct (rev (Home.scenes h)) as [|sc l] eqn:E.
  - split; [intros _|reflexivity].
    rewrite <- (rev_involutive (Home.scenes h)), E. reflexivity.
  - split; [discriminate|]. intros H. rewrite H in E. discriminate.
Qed.

Lemma currentScene_in (h : Home.State) (sc : Home.Scene) :
  currentScene h = Some sc -> In sc (Home.scenes h).
Proof.
  unfold currentScene. destruct (rev (Home.scenes h)) as [|x l] eqn:E;
    [discriminate|]. intros [= <-]. apply in_rev. rewrite E. now left.
Qed.

Lemma narrativeText_truthy (h : Home.State) :
  truthy (narrativeText h) = true.
Proof.
  unfold narrativeText.
  destruct (currentScene h) as [sc|];
    [destruct (Home.narrative sc) as [[|c v]|]; cbn [Home.truthy_opt truthy]|];
    now destruct (Home.isProcessing h).
Qed.

(** X26.  What the live scene shows, in every reachable state of the
    page: a caption always (the narrative of the last scene, or one of the
    two placeholders); the image of the last scene exactly when there is a
    scene; and "Waiting for story..." exactly when there is no scene and no
    round in flight. *)
Theorem live_scene_panels (evs : list Home.Event) (isImgLoaded : bool) :
  let h := Home.run Home.mount evs in
  caption_panel (narrativeText h) = true
  /\ (image_panel (currentImage h) = true <-> Home.scenes h <> [])
  /\ (waiting_panel (Home.isProcessing h) (currentImage h) isImgLoaded = true
      <-> Home.scenes h = [] /\ Home.inflight h = []).
Proof.
  intros h. split; [apply narrativeText_truthy|].
  destruct (HomeProps.reachable_inv evs) as [Hc _]. fold h in Hc.
  pose proof (Home.core_shown _ Hc) as Hshown.
  pose proof (Home.core_flag _ Hc) as Hflag.
  assert (Himg : forall sc, currentScene h = Some sc ->
                            truthy (Home.image sc) = true).
  { intros sc Hsc. apply currentScene_in in Hsc.
    assert (F : Forall (fun sc => Home.image sc <> []) (Home.scenes h)).
    { apply HomeMore.scenes_images. cbn. constructor. }
    rewrite List.Forall_forall in F. specialize (F sc Hsc).
    now destruct (Home.image sc). }
  unfold image_panel, waiting_panel, showLoading, currentImage.
  destruct (currentScene h) as [sc|] eqn:Hcur; cbn [option_map Home.truthy_opt].
  - rewrite (Himg sc eq_refl). cbn [negb andb].
    assert (Hne : Home.scenes h <> []).
    { intros E. apply currentScene_none in E. congruence. }
    split; [tauto|]. split; [discriminate|]. intros [E _]. contradiction.
  - apply currentScene_none in Hcur. cbn [negb andb]. rewrite orb_false_r.
    split; [split; [discriminate|contradiction]|].
    rewrite Hshown, Hflag, negb_involutive.
    destruct (Home.inflight h); cbn; split; try tauto; try discriminate.
    intros [_ [=]].
Qed.

Lemma live_scene_panels_witness :
  Home.scenes (Home.run Home.mount
                 [Home.TranscriptChange Home.fox25;
                  Home.FetchSettled 0 (Home.illustrated Home.fox25) 1%N])
  <> []
  /\ image_panel
       (currentImage
          (Home.run Home.mount
             [Home.TranscriptChange Home.fox25;
              Home.FetchSettled 0 (Home.illustrated Home.fox25) 1%N]))
     = true.
Proof.
  assert (H : Home.scenes
                (Home.run Home.mount
                   [Home.TranscriptChange Home.fox25;
                    Home.FetchSettled 0 (Home.illustrated Home.fox25) 1%N])
              <> []) by (vm_compute; discriminate).
  split; [exact H|].
  exact (proj2 (proj1 (proj2
    (live_scene_panels
       [Home.TranscriptChange Home.fox25;
        Home.FetchSettled 0 (Home.illustrated Home.fox25) 1%N] false))) H).
Defined.

End DisplayProps.

(** ** The page, once more *)

Module AppMore.
Import App.

(** X16.  A manual edit is not passed on: the recorder takes the edited
    text as its [base] and shows it, with nothing interim left, but the
    controller is told nothing and its state, text and cursor included, is
    as before. *)
Theorem manual_edit_is_silent (a : State) (v : str) :
  let a' := step a (Rec (Recorder.Edit v)) in
  home a' = home a
  /\ Recorder.transcript (recorder a') = v
  /\ Recorder.baseTranscript (recorder a') = v
  /\ Recorder.interimTranscript (recorder a') = []
  /\ Recorder.sessionTranscript (recorder a') = [].
Proof.
  cbv zeta. cbn [step home recorder].
  rewrite RecorderMore.edit_tells_nothing. cbn [notify fold_left].
  split; [reflexivity|].
  pose proof (RecorderProps.settle_latest (recorder a)
                (Recorder.handleManualEdit v (recorder a))) as L.
  pose proof (RecorderMore.edit_tells_nothing (recorder a) v) as Hn.
  unfold Recorder.step in *. cbn [fst snd Recorder.direct_calls app
                                   Recorder.react] in *.
  rewrite Hn in L. cbn [Recorder.latest fold_left] in L.
  destruct (RecorderProps.settle_frame (recorder a)
              (Recorder.handleManualEdit v (recorder a)))
    as (Hb & Hs & Hi & _).
  rewrite L, Hb, Hs, Hi. unfold Recorder.handleManualEdit.
  destruct (Recorder.isRecording (recorder a));
    [destruct (Recorder.recognitionRef _)|]; repeat split.
Qed.

End AppMore.
